(** * go-estimate: state-space models, initial conditions and samplers

    A shallow embedding of the Go packages [sim], [model] and [rnd].

    - Go's [float64] is Rocq's primitive binary64 [float]; its arithmetic is
      the kernel's, specified by the standard [FloatAxioms].
    - A Go function returning [(T, error)] returns a [result T]; a run-time
      panic (nil dereference, [make] with a length it refuses, a gonum shape
      panic) is the third outcome. Memory is taken to be sufficient: an
      allocation that the run time accepts succeeds.
    - gonum's [mat] package is an external dependency: the operations used by
      this repository are modelled from gonum's documented behaviour. The
      floating-point entries of a matrix product are those of gonum's BLAS
      kernel, whose order of accumulation is its own: the kernel is a
      parameter of the models.
    - The global random generator behind [rand.NormFloat64] and
      [distuv.UnitUniform.Rand] is an explicit stream of draws that is
      threaded through the samplers. *)

From Stdlib Require Import ZArith List String Lia Bool Arith.
From Stdlib Require Import Floats.
From stdpp Require Import base list.
Import ListNotations.

#[local] Open Scope nat_scope.

(* ================================================================= *)
(** ** The Go run time: errors, panics and results *)

Module Go.

(** Arguments of a format string, as passed to [fmt.Errorf]. *)
Inductive arg : Type :=
| ArgInt (n : Z)
| ArgFloats (p : option (list float)).

(** [fmt.Errorf(format, args...)]: the error value is the format string
    together with its arguments. *)
Record error : Type := Errorf { format : string; args : list arg }.

(** Run-time panics. [MatError] carries the message of a gonum [mat.Error]. *)
Inductive panic : Type :=
| NilDereference
| MakeSliceLenOutOfRange
| IndexOutOfRange
| MatError (msg : string).

Inductive result (T : Type) : Type :=
| Ret (v : T)
| Err (e : error)
| Panic (p : panic).

Arguments Ret {T} v.
Arguments Err {T} e.
Arguments Panic {T} p.

Definition bind {T U : Type} (f : T -> result U) (r : result T) : result U :=
  match r with
  | Ret v => f v
  | Err e => Err e
  | Panic p => Panic p
  end.

#[global] Instance result_ret : MRet result := @Ret.
#[global] Instance result_bind : MBind result := @bind.

Definition is_ret {T} (r : result T) : bool :=
  match r with Ret _ => true | _ => false end.
Definition is_err {T} (r : result T) : bool :=
  match r with Err _ => true | _ => false end.
Definition is_panic {T} (r : result T) : bool :=
  match r with Panic _ => true | _ => false end.

(** Go's [int] is 64 bits wide; arithmetic on it wraps around. *)
Definition wrap64 (z : Z) : Z := ((z + 2 ^ 63) mod 2 ^ 64 - 2 ^ 63)%Z.

(** [make([]T, len)] for elements of [size] bytes: the run time refuses a
    negative length, and a size in bytes above [maxAlloc], with the panic
    "makeslice: len out of range". [maxAlloc] is [2^48] on the 64-bit
    platforms this model is about (48 bits of heap address, as on
    linux/amd64). *)
Definition maxAlloc : Z := (2 ^ 48)%Z.

Definition makeslice_ok (size len : Z) : bool :=
  (0 <=? len)%Z && (len * size <=? maxAlloc)%Z.

End Go.
Export Go.

(* ================================================================= *)
(** ** gonum [mat]: dense matrices and vectors as values *)

Module mat.

Definition ErrShape : panic := MatError "mat: dimension mismatch".
Definition ErrZeroLength : panic := MatError "mat: zero length in matrix dimension".
Definition ErrRowAccess : panic := MatError "mat: row index out of range".
Definition ErrColAccess : panic := MatError "mat: column index out of range".

(** A [mat.Dense] with its dimensions and its entries. gonum keeps the
    entries in a private row-major slice that this repository never touches;
    the entry at row [i], column [j] is [At i j]. *)
Record Dense : Type := mkDense { Rows : nat; Cols : nat; At : nat -> nat -> float }.

(** A [*mat.Dense] is a pointer: [None] is [nil]. *)
Definition DensePtr : Type := option Dense.

(** A [mat.Vector] interface value holding the entries of a vector:
    [None] is the nil interface. *)
Definition Vector : Type := option (list float).

(** [Dims()] on a [*mat.Dense]: reads the receiver's fields, so a nil receiver panics. *)
Definition Dims (m : DensePtr) : result (nat * nat) :=
  match m with
  | None => Panic NilDereference
  | Some d => Ret (Rows d, Cols d)
  end.

(** [Vector.Len()]: a method call on a nil interface panics. *)
Definition Len (v : Vector) : result nat :=
  match v with
  | None => Panic NilDereference
  | Some l => Ret (length l)
  end.

(** A vector of length [n] seen as an [n x 1] matrix. *)
Definition of_vec (v : list float) : Dense :=
  mkDense (length v) 1 (fun i _ => nth i v 0%float).

Definition of_rows (rows cols : nat) (l : list (list float)) : Dense :=
  mkDense rows cols (fun i j => nth j (nth i l []) 0%float).

Definition row (m : Dense) (i : nat) : list float :=
  map (fun k => At m i k) (seq 0 (Cols m)).

Definition col (m : Dense) (j : nat) : list float :=
  map (fun k => At m k j) (seq 0 (Rows m)).

(** [Mul] switches on the concrete type of its right operand to choose the
    routine that computes the product: BLAS [Gemv] for a vector, [Gemm] for
    a [*mat.Dense], and its own loop for a diagonal matrix. *)
Inductive operand : Type := IsVector | IsDense | IsDiagonal.

(** The routines behind [Mul]: [gemm t a b i j] is the entry at row [i],
    column [j] that the routine for an operand of type [t] computes for the
    product of [a] and [b]. It is a floating-point inner product of row [i]
    of [a] with column [j] of [b], accumulated in an order that is the
    routine's own (gonum's assembly kernels do not sum from left to right),
    so the kernel is a parameter and nothing is assumed about it. *)
Class Kernel : Type := gemm : operand -> Dense -> Dense -> nat -> nat -> float.


(** One kernel, for concrete evaluations: products added from left to
    right, starting from zero, whatever the operand's type. *)
Fixpoint dot_from (acc : float) (a b : list float) : float :=
  match a, b with
  | x :: a', y :: b' => dot_from (acc + x * y)%float a' b'
  | _, _ => acc
  end.

Definition dot (a b : list float) : float := dot_from 0%float a b.

Definition sequential : Kernel :=
  fun _ a b i j => dot (row a i) (col b j).

(** [new(mat.Dense).Mul(a, b)] with an empty receiver and a right operand
    of concrete type [t]: the operands' dimensions are read first (a nil
    operand panics), the inner dimensions must agree, and the receiver is
    resized to [ar x bc], which gonum refuses for a zero dimension. *)
Definition Mul {K : Kernel} (t : operand) (a b : DensePtr) : result Dense :=
  '(ar, ac) ← Dims a;
  '(br, bc) ← Dims b;
  match a, b with
  | Some ma, Some mb =>
      if negb (ac =? br) then Panic ErrShape
      else if (ar =? 0) || (bc =? 0) then Panic ErrZeroLength
      else Ret (mkDense ar bc (gemm t ma mb))
  | _, _ => Panic NilDereference
  end.

(** [m.Mul(a, b)] with a receiver [m] that already has dimensions: the
    product must have the receiver's dimensions. *)
Definition MulInto {K : Kernel} (t : operand) (m : Dense) (a b : DensePtr)
  : result Dense :=
  p ← Mul t a b;
  if (Rows p =? Rows m) && (Cols p =? Cols m) then Ret p else Panic ErrShape.

(** [out.Add(out, b)]: both operands must have the same dimensions. *)
Definition Add (a b : Dense) : result Dense :=
  if negb ((Rows a =? Rows b) && (Cols a =? Cols b)) then Panic ErrShape
  else if (Rows a =? 0) || (Cols a =? 0) then Panic ErrZeroLength
  else Ret (mkDense (Rows a) (Cols a) (fun i j => (At a i j + At b i j)%float)).

(** [m.ColView(j)]: column [j] as a vector. *)
Definition ColView (m : Dense) (j : nat) : result (list float) :=
  if Cols m <=? j then Panic ErrColAccess else Ret (col m j).

(** [mat.NewDense(r, c, data)] for a non-nil [data] and non-negative [r], [c]. *)
Definition NewDense (r c : nat) (data : list float) : result Dense :=
  if (r =? 0) || (c =? 0) then Panic ErrZeroLength
  else if negb (r * c =? length data) then Panic ErrShape
  else Ret (mkDense r c (fun i j => nth (i * c + j) data 0%float)).

(** [mat.NewDiagonal(n, data)]: the [n x n] matrix with [data] on its diagonal. *)
Definition NewDiagonal (n : nat) (data : list float) : result Dense :=
  if n =? 0 then Panic ErrZeroLength
  else if negb (n =? length data) then Panic ErrShape
  else Ret (mkDense n n (fun i j => if i =? j then nth i data 0%float else 0%float)).

(** The zero value [&mat.Dense{}]: the empty matrix. *)
Definition empty : Dense := mkDense 0 0 (fun _ _ => 0%float).

(** [new(mat.Dense).CloneFrom(a)]: reads the dimensions of [a] (a nil operand
    panics) and copies its entries into a new slice of [r*c] floats. *)
Definition CloneFrom (a : DensePtr) : result Dense :=
  '(r, c) ← Dims a;
  match a with
  | Some ma => Ret (mkDense r c (fun i j => At ma i j))
  | None => Panic NilDereference
  end.

End mat.

(* ================================================================= *)
(** ** gonum vectors and symmetric matrices in memory

    [InitCond] hands out copies of what it stores, so here the objects live
    in a store and a pointer is a location in it. *)

Module heap.

Abbreviation loc := nat (only parsing).

Inductive object : Type :=
| Floats (data : list float)
    (* the backing array of a []float64 *)
| VecDense (N : nat) (data : option loc)
    (* mat.VecDense: blas64.Vector{N, Data, Inc: 1}; Data starts its array *)
| SymDense (N : nat) (data : option loc).
    (* mat.SymDense: blas64.Symmetric{N, Stride: N, Data, Uplo: Upper} *)

Abbreviation heap := (list object) (only parsing).

(** Computations on the store that return, or panic. *)
Definition M (T : Type) : Type := heap -> result T * heap.

Definition ret {T} (v : T) : M T := fun h => (Ret v, h).
Definition panic_with {T} (p : panic) : M T := fun h => (Panic p, h).
Definition bindM {T U} (f : T -> M U) (m : M T) : M U :=
  fun h =>
    match m h with
    | (Ret v, h') => f v h'
    | (Err e, h') => (Err e, h')
    | (Panic p, h') => (Panic p, h')
    end.

#[global] Instance M_ret : MRet M := @ret.
#[global] Instance M_bind : MBind M := @bindM.

Definition alloc (o : object) : M loc := fun h => (Ret (length h), h ++ [o]).

Definition store (l : loc) (o : object) : M unit :=
  fun h => (Ret tt, <[l := o]> h).

(** Dereferencing a pointer to a vector header: [(N, Data)]. *)
Definition load_vec (v : option loc) : M (nat * option loc) :=
  fun h =>
    match v with
    | None => (Panic NilDereference, h)
    | Some l =>
        match h !! l with
        | Some (VecDense N d) => (Ret (N, d), h)
        | _ => (Panic NilDereference, h)
        end
    end.

Definition load_sym (s : option loc) : M (nat * option loc) :=
  fun h =>
    match s with
    | None => (Panic NilDereference, h)
    | Some l =>
        match h !! l with
        | Some (SymDense N d) => (Ret (N, d), h)
        | _ => (Panic NilDereference, h)
        end
    end.

(** The backing array of a slice; the nil slice has none. *)
Definition load_floats (d : option loc) : M (list float) :=
  fun h =>
    match d with
    | None => (Ret [], h)
    | Some l =>
        match h !! l with
        | Some (Floats data) => (Ret data, h)
        | _ => (Panic NilDereference, h)
        end
    end.

Definition store_floats (d : option loc) (data : list float) : M unit :=
  match d with
  | None => ret tt
  | Some l => store l (Floats data)
  end.

(** [v.Len()] and [s.Symmetric()] on pointers. *)
Definition Len (v : option loc) : M nat := '(N, _) ← load_vec v; ret N.
Definition Symmetric (s : option loc) : M nat := '(N, _) ← load_sym s; ret N.

(** [mat.NewVecDense(n, nil)]: a zeroed vector of length [n]. *)
Definition NewVecDense (n : nat) : M loc :=
  if n =? 0 then panic_with mat.ErrZeroLength
  else
    d ← alloc (Floats (repeat 0%float n));
    alloc (VecDense n (Some d)).

(** [mat.NewSymDense(n, nil)]: a zeroed [n x n] symmetric matrix. *)
Definition NewSymDense (n : nat) : M loc :=
  if n =? 0 then panic_with mat.ErrZeroLength
  else
    d ← alloc (Floats (repeat 0%float (n * n)));
    alloc (SymDense n (Some d)).

(** [v.CopyVec(a)]: copies the first [min(v.Len(), a.Len())] entries of [a]
    into [v] and returns their number. *)
Definition CopyVec (v a : option loc) : M nat :=
  '(vN, vd) ← load_vec v;
  '(aN, ad) ← load_vec a;
  let n := Nat.min vN aN in
  if bool_decide (v = a) then ret n
  else
    src ← load_floats ad;
    dst ← load_floats vd;
    _ ← store_floats vd (take n src ++ drop n dst);
    ret n.

(** [v.CloneFromVec(a)] (named [CloneVec] in older gonum): makes [v] a copy
    of [a]. The receiver keeps its backing array when that has room for
    [a.Len()] entries ([use]), and gets a new one otherwise. *)
Definition CloneFromVec (v a : option loc) : M unit :=
  '(_, vd) ← load_vec v;
  '(aN, ad) ← load_vec a;
  if bool_decide (v = a) then ret tt
  else
    src ← load_floats ad;
    old ← load_floats vd;
    vd' ← (if aN <=? length old then ret vd
           else d ← alloc (Floats (repeat 0%float aN)); ret (Some d));
    _ ← match v with
        | Some l => store l (VecDense aN vd')
        | None => panic_with NilDereference
        end;
    dst ← load_floats vd';
    store_floats vd' (take aN src ++ drop aN dst).

(** [s.CopySym(a)]: copies the upper triangle of the leading
    [min(a.Symmetric(), s.Symmetric())] rows and columns of [a] into [s]. *)
Definition copy_upper (n sN aN : nat) (dst src : list float) : list float :=
  map (fun k =>
         let i := k / sN in
         let j := k mod sN in
         if (i <=? j) && (j <? n) then nth (i * aN + j) src 0%float
         else nth k dst 0%float)
      (seq 0 (length dst)).

Definition CopySym (s a : option loc) : M nat :=
  '(aN, ad) ← load_sym a;
  '(sN, sd) ← load_sym s;
  let n := Nat.min aN sN in
  if n =? 0 then ret 0
  else
    src ← load_floats ad;
    dst ← load_floats sd;
    _ ← store_floats sd (copy_upper n sN aN dst src);
    ret n.

(** [v.SetVec(i, x)] and [s.SetSym(i, j, x)], the mutators a caller has. *)
Definition SetVec (v : option loc) (i : nat) (x : float) : M unit :=
  '(N, d) ← load_vec v;
  if N <=? i then panic_with mat.ErrRowAccess
  else
    data ← load_floats d;
    store_floats d (<[i := x]> data).

Definition SetSym (s : option loc) (i j : nat) (x : float) : M unit :=
  '(N, d) ← load_sym s;
  if N <=? i then panic_with mat.ErrRowAccess
  else if N <=? j then panic_with mat.ErrColAccess
  else
    data ← load_floats d;
    store_floats d (<[Nat.min i j * N + Nat.max i j := x]> data).

(** What a reader sees: the entries of a vector, and [At(i, j)] of a
    symmetric matrix, which reads the upper triangle. *)
Definition vec_entries (h : heap) (v : loc) : option (list float) :=
  match h !! v with
  | Some (VecDense N (Some d)) =>
      match h !! d with
      | Some (Floats data) => Some (take N data)
      | _ => None
      end
  | Some (VecDense N None) => Some []
  | _ => None
  end.

Definition sym_entry (h : heap) (s : loc) (i j : nat) : option float :=
  match h !! s with
  | Some (SymDense N (Some d)) =>
      match h !! d with
      | Some (Floats data) => data !! (Nat.min i j * N + Nat.max i j)
      | _ => None
      end
  | _ => None
  end.

(** The locations a vector or symmetric matrix occupies: its header and its
    backing array. *)
Definition footprint (h : heap) (l : loc) : list loc :=
  match h !! l with
  | Some (VecDense _ (Some d)) | Some (SymDense _ (Some d)) => [l; d]
  | _ => [l]
  end.

End heap.

(* ================================================================= *)
(** ** [InitCond]: the type, its constructor and [Cov] are the same in both
    packages; [State] differs and is defined in each *)

Module InitCond.
Import heap.

Record InitCond : Type := mkInitCond {
  state : option loc;  (* *mat.VecDense *)
  cov : option loc     (* *mat.SymDense *)
}.

Definition NewInitCond (state cov : option loc) : M InitCond :=
  s ← alloc (VecDense 0 None);
  _ ← CloneFromVec (Some s) state;
  n ← Symmetric cov;
  c ← NewSymDense n;
  _ ← CopySym (Some c) cov;
  ret (mkInitCond (Some s) (Some c)).

Definition Cov (c : InitCond) : M loc :=
  n ← Symmetric (cov c);
  cv ← NewSymDense n;
  _ ← CopySym (Some cv) (cov c);
  ret cv.

End InitCond.

(* ================================================================= *)
(** ** Package [sim]: [BaseModel] *)

Module sim.

Record BaseModel : Type := mkBaseModel {
  A : mat.DensePtr;  (* internal state matrix *)
  B : mat.DensePtr;  (* control matrix *)
  C : mat.DensePtr;  (* output state matrix *)
  D : mat.DensePtr   (* output control matrix *)
}.

Definition NewBaseModel (A B C D : mat.DensePtr) : result BaseModel :=
  Ret (mkBaseModel A B C D).

(** [Dims] has no error result: it returns or panics. *)
Definition Dims (b : BaseModel) : result (nat * nat) :=
  '(_, _in) ← mat.Dims (A b);
  '(out, _) ← mat.Dims (C b);
  Ret (_in, out).

Definition Propagate {K : mat.Kernel} (b : BaseModel) (x u q : mat.Vector)
  : result (list float) :=
  '(_in, _out) ← Dims b;
  if (match u with Some uv => negb (length uv =? _out) | None => false end)
  then Err (Errorf "Invalid input vector" [])
  else
    xlen ← mat.Len x;
    if negb (xlen =? _in) then Err (Errorf "Invalid state vector" [])
    else
      out ← mat.Mul mat.IsVector (A b) (option_map mat.of_vec x);
      out ← match u, B b with
            | Some uv, Some _ =>
                outU ← mat.Mul mat.IsVector (B b) (Some (mat.of_vec uv));
                mat.Add out outU
            | _, _ => Ret out
            end;
      out ← match q with
            | Some qv =>
                if length qv =? _in then mat.Add out (mat.of_vec qv) else Ret out
            | None => Ret out
            end;
      mat.ColView out 0.

Definition Observe {K : mat.Kernel} (b : BaseModel) (x u r : mat.Vector)
  : result (list float) :=
  '(_in, _out) ← Dims b;
  if (match u with Some uv => negb (length uv =? _out) | None => false end)
  then Err (Errorf "Invalid input vector" [])
  else
    xlen ← mat.Len x;
    if negb (xlen =? _in) then Err (Errorf "Invalid state vector" [])
    else
      out ← mat.Mul mat.IsVector (C b) (option_map mat.of_vec x);
      out ← match u, D b with
            | Some uv, Some _ =>
                outU ← mat.Mul mat.IsVector (D b) (Some (mat.of_vec uv));
                mat.Add out outU
            | _, _ => Ret out
            end;
      out ← match r with
            | Some rv =>
                if length rv =? _out then mat.Add out (mat.of_vec rv) else Ret out
            | None => Ret out
            end;
      mat.ColView out 0.

(** [InitCond.State], which copies with [CloneFromVec]. *)
Definition State (c : InitCond.InitCond) : heap.M heap.loc :=
  n ← heap.Len (InitCond.state c);
  state ← heap.NewVecDense n;
  _ ← heap.CloneFromVec (Some state) (InitCond.state c);
  heap.ret state.

Definition Cov : InitCond.InitCond -> heap.M heap.loc := InitCond.Cov.

(** The matrix accessors; they have no error result. *)
Definition StateMatrix (b : BaseModel) : result mat.Dense :=
  mat.CloneFrom (A b).

Definition StateCtlMatrix (b : BaseModel) : result mat.Dense :=
  match B b with
  | Some _ => mat.CloneFrom (B b)
  | None => Ret mat.empty
  end.

Definition OutputMatrix (b : BaseModel) : result mat.Dense :=
  mat.CloneFrom (C b).

Definition OutputCtlMatrix (b : BaseModel) : result mat.Dense :=
  match D b with
  | Some _ => mat.CloneFrom (D b)
  | None => Ret mat.empty
  end.

End sim.

(* ================================================================= *)
(** ** Package [model]: [Fall] *)

Module model.

Record Fall : Type := mkFall {
  A : mat.DensePtr;
  B : mat.DensePtr;
  C : mat.DensePtr;
  D : mat.DensePtr
}.

Definition NewFall (A B C D : mat.DensePtr) : result Fall :=
  Ret (mkFall A B C D).

Definition Dims (b : Fall) : result (nat * nat) :=
  '(_, _in) ← mat.Dims (A b);
  '(out, _) ← mat.Dims (D b);
  Ret (_in, out).

Definition Propagate {K : mat.Kernel} (b : Fall) (x u q : mat.Vector)
  : result (list float) :=
  '(_in, _out) ← Dims b;
  ulen ← mat.Len u;
  if negb (ulen =? _out) then Err (Errorf "Invalid input vector" [])
  else
    xlen ← mat.Len x;
    if negb (xlen =? _in) then Err (Errorf "Invalid state vector" [])
    else
      out ← mat.Mul mat.IsVector (A b) (option_map mat.of_vec x);
      outU ← mat.Mul mat.IsVector (B b) (option_map mat.of_vec u);
      out ← mat.Add out outU;
      out ← match q with
            | Some qv =>
                if length qv =? _in then mat.Add out (mat.of_vec qv) else Ret out
            | None => Ret out
            end;
      mat.ColView out 0.

Definition Observe {K : mat.Kernel} (b : Fall) (x u r : mat.Vector)
  : result (list float) :=
  '(_in, _out) ← Dims b;
  ulen ← mat.Len u;
  if negb (ulen =? _out) then Err (Errorf "Invalid input vector" [])
  else
    xlen ← mat.Len x;
    if negb (xlen =? _in) then Err (Errorf "Invalid state vector" [])
    else
      out ← mat.Mul mat.IsVector (C b) (option_map mat.of_vec x);
      outU ← mat.Mul mat.IsVector (D b) (option_map mat.of_vec u);
      out ← mat.Add out outU;
      out ← match r with
            | Some rv =>
                if length rv =? _out then mat.Add out (mat.of_vec rv) else Ret out
            | None => Ret out
            end;
      mat.ColView out 0.

(** [InitCond.State], which copies with [CopyVec]. *)
Definition State (c : InitCond.InitCond) : heap.M heap.loc :=
  n ← heap.Len (InitCond.state c);
  state ← heap.NewVecDense n;
  _ ← heap.CopyVec (Some state) (InitCond.state c);
  heap.ret state.

Definition Cov : InitCond.InitCond -> heap.M heap.loc := InitCond.Cov.

End model.

(* ================================================================= *)
(** ** Package [rnd]: correlated Gaussian samples and roulette-wheel draws *)

Module rnd.

(** The state of the global generator: the draws still to come. *)
Definition source : Type := nat -> float.

Definition next (s : source) : float * source := (s 0, fun i => s (S i)).

(** [for i := range data { data[i] = rand.NormFloat64() }] *)
Fixpoint fill (k : nat) (s : source) : list float * source :=
  match k with
  | 0 => ([], s)
  | S k' =>
      let '(x, s1) := next s in
      let '(l, s2) := fill k' s1 in
      (x :: l, s2)
  end.

Definition InvalidSamples (n : Z) : error :=
  Errorf "Invalid number of samples requested: %d" [ArgInt n].
Definition SVDFailed : error := Errorf "SVD factorization failed" [].
Definition InvalidWeights (p : option (list float)) : error :=
  Errorf "Invalid probability weights: %v" [ArgFloats p].

Section WithSVD.

Context {K : mat.Kernel}.

(** [mat.SVD] is gonum's. [Factorize c] is [None] when
    [svd.Factorize(c, mat.SVDFull)] reports failure, and otherwise the matrix
    written by [svd.UTo] together with the slice returned by [svd.Values]. *)
Variable Factorize : mat.Dense -> option (mat.Dense * list float).

Definition WithCovN (cov : mat.DensePtr) (n : Z) (src : source)
  : result mat.Dense * source :=
  if (n <=? 1)%Z then (Err (InvalidSamples n), src)
  else
    match cov with
    | None => (Panic NilDereference, src)
    | Some c =>
        match Factorize c with
        | None => (Err SVDFailed, src)
        | Some (U, vals) =>
            let vals := map PrimFloat.sqrt vals in
            match (diag ← mat.NewDiagonal (length vals) vals;
                   mat.MulInto mat.IsDiagonal U (Some U) (Some diag)) with
            | Ret U =>
                let rows := mat.Rows c in
                (* make([]float64, rows*n): the product is a 64-bit int *)
                let len := wrap64 (Z.of_nat rows * n) in
                if negb (makeslice_ok 8 len)
                then (Panic MakeSliceLenOutOfRange, src)
                else
                  let '(data, src') := fill (Z.to_nat len) src in
                  (* a wrapped product leaves the slice shorter than the
                     matrix it backs *)
                  if negb (len =? Z.of_nat rows * n)%Z
                  then (Panic IndexOutOfRange, src')
                  else
                    (samples ← mat.NewDense rows (Z.to_nat n) data;
                     mat.MulInto mat.IsDense samples (Some U) (Some samples), src')
            | Err e => (Err e, src)
            | Panic p => (Panic p, src)
            end
        end
    end.

End WithSVD.

(** [floats.CumSum(dst, s)] for [dst] as long as [s]: entry [i] is the sum
    of [s[0..i]], here accumulated from left to right as gonum's Go code
    does ([dst[i] = dst[i-1] + s[i]]). gonum's assembly code groups the
    additions differently, so the properties below use of these sums only
    their number and what every grouping gives: the sums of [[1; 0; 0]] and
    of zeros, which are exact. *)
Fixpoint cumsum_from (acc : float) (s : list float) : list float :=
  match s with
  | [] => []
  | x :: s' => (acc + x)%float :: cumsum_from (acc + x)%float s'
  end.

Definition CumSum (s : list float) : list float :=
  match s with
  | [] => []
  | x :: s' => x :: cumsum_from x s'
  end.

(** [sort.Search(n, f)]: the loop [for i < j] runs at most [n] times. *)
Fixpoint search_loop (fuel : nat) (f : nat -> bool) (i j : nat) : nat :=
  match fuel with
  | 0 => i
  | S fuel' =>
      if i <? j then
        let h := (i + j) / 2 in
        if negb (f h) then search_loop fuel' f (h + 1) j
        else search_loop fuel' f i h
      else i
  end.

Definition Search (n : nat) (f : nat -> bool) : nat := search_loop n f 0 n.

(** The body of [for i := range indices], run for the [k] entries of
    [indices]. Go's [cdf[i] > val] is [val <? cdf[i]]. *)
Fixpoint draw_loop (cdf : list float) (k : nat) (src : source)
  : list nat * source :=
  match k with
  | 0 => ([], src)
  | S k' =>
      let '(r, src1) := next src in
      let val := (r * nth (length cdf - 1) cdf 0)%float in
      let idx := Search (length cdf) (fun i => (val <? nth i cdf 0)%float) in
      let '(rest, src2) := draw_loop cdf k' src1 in
      (idx :: rest, src2)
  end.

(** A [[]float64] argument: [None] is the nil slice, whose length is 0. *)
Definition is_nil (p : option (list float)) : bool :=
  match p with None => true | Some _ => false end.

Definition len (p : option (list float)) : nat :=
  match p with None => 0 | Some l => length l end.

Definition RouletteDrawN (p : option (list float)) (n : Z) (src : source)
  : result (list nat) * source :=
  if is_nil p || (len p =? 0)
  then (Err (InvalidWeights p), src)
  else
    let cdf := CumSum (default [] p) in
    (* make([]int, n) *)
    if negb (makeslice_ok 8 n) then (Panic MakeSliceLenOutOfRange, src)
    else
      let '(indices, src') := draw_loop cdf (Z.to_nat n) src in
      (Ret indices, src').

End rnd.

(* ================================================================= *)
(** ** Specification-side notions *)

(** The dimensional invariant of a model with state dimension [n] and output
    dimension [p]: [A] is [n x n], [C] is [p x n]; [B], if present, has [n]
    rows and as many columns as [D] (if that is present); [D], if present,
    has [p] rows. *)
Definition invariant (A B C D : mat.DensePtr) (n p : nat) : Prop :=
  match A, C with
  | Some a, Some c =>
      mat.Rows a = n /\ mat.Cols a = n /\
      mat.Rows c = p /\ mat.Cols c = n /\
      (forall b, B = Some b ->
         mat.Rows b = n /\ forall d, D = Some d -> mat.Cols b = mat.Cols d) /\
      (forall d, D = Some d -> mat.Rows d = p)
  | _, _ => False
  end.

(** A valid model: its four matrices satisfy the dimensional invariant. *)
Definition valid_model (b : sim.BaseModel) (n p : nat) : Prop :=
  invariant (sim.A b) (sim.B b) (sim.C b) (sim.D b) n p.



(** The inputs that the two length checks of [Propagate] and [Observe]
    reject, and the error each gets: [u] is checked first, against the row
    count of [c]; then [x], against the column count of [a]. *)
Definition rejected (a c : mat.Dense) (x u : mat.Vector) (e : error) : Prop :=
  (e = Errorf "Invalid input vector" [] /\
   exists uv, u = Some uv /\ length uv <> mat.Rows c) \/
  (e = Errorf "Invalid state vector" [] /\
   (forall uv, u = Some uv -> length uv = mat.Rows c) /\
   exists xs, x = Some xs /\ length xs <> mat.Cols a).

(** The generator after [k] draws. *)
Definition advance (k : nat) (src : rnd.source) : rnd.source :=
  fun i => src (k + i).

(** Every draw of the generator lies in the unit interval [[0, 1)]. *)
Definition unit_draws (src : rnd.source) : Prop :=
  forall i, (0 <=? src i)%float = true /\ (src i <? 1)%float = true.

(** A weight that is zero: [+0] or [-0]. *)
Definition zero_weight (w : float) : Prop := PrimFloat.is_zero w = true.

(** [h'] keeps every object of [h] that lies outside [locs]: what a caller
    mutating the objects at [locs], or allocating, can do to the store. *)
Definition mutates_only (locs : list heap.loc) (h h' : heap.heap) : Prop :=
  forall l o, l ∉ locs -> h !! l = Some o -> h' !! l = Some o.

(** Every object of [h] is still in [h'], unchanged. *)
Definition preserved (h h' : heap.heap) : Prop :=
  forall l o, h !! l = Some o -> h' !! l = Some o.

(** The value at [l] in [h'] occupies only locations allocated after [h]: it
    shares no memory with anything [h] holds. *)
Definition fresh_since (h h' : heap.heap) (l : heap.loc) : Prop :=
  forall l', l' ∈ heap.footprint h' l -> length h <= l'.

(** An [InitCond] in the store [h]: a state vector of [n >= 1] entries [xs]
    and a symmetric [k x k] covariance, [k >= 1], with backing array [cs]. *)
Record holds (h : heap.heap) (c : InitCond.InitCond)
    (n : nat) (xs : list float) (k : nat) (cs : list float) : Prop := {
  holds_state : exists sl sd buf,
      InitCond.state c = Some sl /\
      h !! sl = Some (heap.VecDense n (Some sd)) /\
      h !! sd = Some (heap.Floats buf) /\
      xs = take n buf /\ n <= length buf /\ 0 < n;
  holds_cov : exists cl cd,
      InitCond.cov c = Some cl /\
      h !! cl = Some (heap.SymDense k (Some cd)) /\
      h !! cd = Some (heap.Floats cs) /\
      length cs = k * k /\ 0 < k
}.

(** *** Concrete models and inputs *)

Definition m11 : mat.Dense := mat.of_rows 1 1 [[1%float]].
Definition b12 : mat.Dense := mat.of_rows 1 2 [[1%float; 1%float]].
Definition d12 : mat.Dense := mat.of_rows 1 2 [[0%float; 0%float]].
Definition a12 : mat.Dense := mat.of_rows 1 2 [[1%float; 2%float]].
Definition a22 : mat.Dense :=
  mat.of_rows 2 2 [[1%float; 2%float]; [3%float; 4%float]].
Definition c12 : mat.Dense := mat.of_rows 1 2 [[1%float; 0%float]].

(** One state, two controls, one output: [n = 1], [m = 2], [p = 1]. *)
Definition two_controls : sim.BaseModel :=
  sim.mkBaseModel (Some m11) (Some b12) (Some m11) (Some d12).
Definition two_controls_fall : model.Fall :=
  model.mkFall (Some m11) (Some b12) (Some m11) (Some d12).


(** No control channel: [B] and [D] absent. *)
Definition autonomous : sim.BaseModel :=
  sim.mkBaseModel (Some a22) None (Some c12) None.
Definition autonomous_fall : model.Fall :=
  model.mkFall (Some a22) None (Some c12) None.

Definition halves : rnd.source := fun _ => 0.5%float.

(** A factorization that answers with the identity and the singular values
    [[4; 9]], whatever it is given. *)
Definition id22 : mat.Dense :=
  mat.of_rows 2 2 [[1%float; 0%float]; [0%float; 1%float]].
Definition svd_id (_ : mat.Dense) : option (mat.Dense * list float) :=
  Some (id22, [4%float; 9%float]).

(** A store holding a caller's state vector [[1; 2]] at location 1 and a
    [2 x 2] covariance at location 3. *)
Definition store0 : heap.heap :=
  [ heap.Floats [1%float; 2%float];
    heap.VecDense 2 (Some 0);
    heap.Floats [4%float; 1%float; 0%float; 9%float];
    heap.SymDense 2 (Some 2) ].

Definition ic0 : InitCond.InitCond := InitCond.mkInitCond (Some 1) (Some 3).

(* ================================================================= *)
(** * Properties *)

(** The properties hold for every multiplication kernel [K]. Statements
    evaluated on concrete inputs name the kernel they are evaluated with. *)

(** ** Matrices and vectors *)



(** ** Models *)

Lemma two_controls_valid : valid_model two_controls 1 1.
Proof.
  cbn.
  split; [reflexivity|]. split; [reflexivity|].
  split; [reflexivity|]. split; [reflexivity|]. split.
  - intros ? [= <-]. split; [reflexivity|]. now intros ? [= <-].
  - now intros ? [= <-].
Qed.

Lemma autonomous_valid : valid_model autonomous 2 1.
Proof.
  cbn.
  split; [reflexivity|]. split; [reflexivity|].
  split; [reflexivity|]. split; [reflexivity|]. split; intros ? [=].
Qed.

(** gonum's operations return or panic; they have no error result. *)
Lemma is_err_bind {T U} (f : T -> result U) (r : result T) :
  is_err r = false -> (forall v, is_err (f v) = false) ->
  is_err (r ≫= f) = false.
Proof. intros Hr Hf. destruct r; cbn in *; [apply Hf|discriminate|reflexivity]. Qed.

Lemma Mul_not_err {K : mat.Kernel} (t : mat.operand) (a b : mat.DensePtr) :
  is_err (mat.Mul t a b) = false.
Proof.
  unfold mat.Mul. destruct a as [a|], b as [b|]; cbn; try reflexivity.
  destruct (negb _); [reflexivity|]. now destruct (_ || _).
Qed.

Lemma Add_not_err (a b : mat.Dense) : is_err (mat.Add a b) = false.
Proof.
  unfold mat.Add. destruct (negb _); [reflexivity|]. now destruct (_ || _).
Qed.

Lemma ColView_not_err (m : mat.Dense) (j : nat) : is_err (mat.ColView m j) = false.
Proof. unfold mat.ColView. now destruct (_ <=? _). Qed.

Lemma NewDense_not_err (r c : nat) (data : list float) :
  is_err (mat.NewDense r c data) = false.
Proof.
  unfold mat.NewDense. destruct (_ || _); [reflexivity|]. now destruct (negb _).
Qed.

Lemma NewDiagonal_not_err (n : nat) (data : list float) :
  is_err (mat.NewDiagonal n data) = false.
Proof.
  unfold mat.NewDiagonal. destruct (_ =? _); [reflexivity|]. now destruct (negb _).
Qed.

Lemma MulInto_not_err {K : mat.Kernel} (t : mat.operand) (m : mat.Dense)
    (a b : mat.DensePtr) :
  is_err (mat.MulInto t m a b) = false.
Proof.
  unfold mat.MulInto. apply is_err_bind; [apply Mul_not_err|].
  intros v. now destruct (_ && _).
Qed.

Create HintDb no_err.
#[local] Hint Resolve Mul_not_err Add_not_err ColView_not_err NewDense_not_err
  NewDiagonal_not_err MulInto_not_err : no_err.

(** The part of [Propagate] and [Observe] after the two length checks
    returns no error. *)
Lemma affine_tail_not_err {K : mat.Kernel} (M N : mat.DensePtr) (x : option mat.Dense)
    (u q : mat.Vector) (k : nat) :
  is_err (out ← mat.Mul mat.IsVector M x;
          out ← match u, N with
                | Some uv, Some _ =>
                    outU ← mat.Mul mat.IsVector N (Some (mat.of_vec uv));
                    mat.Add out outU
                | _, _ => Ret out
                end;
          out ← match q with
                | Some qv =>
                    if length qv =? k then mat.Add out (mat.of_vec qv) else Ret out
                | None => Ret out
                end;
          mat.ColView out 0) = false.
Proof.
  apply is_err_bind; [auto with no_err|]. intros out.
  apply is_err_bind.
  - destruct u as [uv|]; [|reflexivity]. destruct N; [|reflexivity].
    apply is_err_bind; auto with no_err.
  - intros out2. apply is_err_bind; [|auto with no_err].
    destruct q as [qv|]; [|reflexivity].
    destruct (_ =? _); [auto with no_err|reflexivity].
Qed.

(** What [BaseModel.Propagate] checks: [u] against the row count of [C],
    then [x] against the column count of [A]. *)
Lemma sim_Propagate_err {K : mat.Kernel} (a c : mat.Dense) (B D : mat.DensePtr)
    (xs : list float) (u q : mat.Vector) :
  is_err (sim.Propagate (sim.mkBaseModel (Some a) B (Some c) D) (Some xs) u q) = true
  <-> (exists uv, u = Some uv /\ length uv <> mat.Rows c)
      \/ length xs <> mat.Cols a.
Proof.
  unfold sim.Propagate, sim.Dims.
  cbn [mat.Dims mbind result_bind bind sim.A sim.B sim.C mat.Len].
  destruct u as [uv|].
  - destruct (Nat.eqb_spec (length uv) (mat.Rows c)) as [Hu|Hu]; cbn [negb is_err].
    + destruct (Nat.eqb_spec (length xs) (mat.Cols a)) as [Hx|Hx]; cbn [negb is_err].
      * split; [|intros [(uv' & [= <-] & H)|H]; contradiction].
        intros H. exfalso. revert H.
        pose proof (affine_tail_not_err (Some a) B (Some (mat.of_vec xs))
                      (Some uv) q (mat.Cols a)) as E.
        cbn [mbind result_bind option_map] in *. rewrite E. discriminate.
      * split; [intros _; now right|reflexivity].
    + split; [intros _; left; now exists uv|reflexivity].
  - destruct (Nat.eqb_spec (length xs) (mat.Cols a)) as [Hx|Hx]; cbn [negb is_err].
    + split; [|intros [(uv' & [=] & _)|H]; contradiction].
      intros H. exfalso. revert H.
      pose proof (affine_tail_not_err (Some a) B (Some (mat.of_vec xs))
                    None q (mat.Cols a)) as E.
      cbn [mbind result_bind option_map] in *. rewrite E. discriminate.
    + split; [intros _; now right|reflexivity].
Qed.

(** The scenario [A = [[1]]], [B = [[1]]], [C = [[1]]], [D = [[0]]]. *)
Example propagate_unit_model :
  let b := sim.mkBaseModel (Some m11) (Some m11) (Some m11)
             (Some (mat.of_rows 1 1 [[0%float]])) in
  sim.Propagate (K := mat.sequential) b (Some [0%float]) (Some [1%float]) None
    = Ret [1%float] /\
  sim.Observe (K := mat.sequential) b (Some [1%float]) (Some [0%float]) None
    = Ret [1%float].
Proof. split; reflexivity. Qed.

(** [A = [[1, 2], [3, 4]]], [C = [[1, 0]]] and [x = [1, 1]]: the sums are
    exact, so every order of accumulation gives them. *)
Example propagate_autonomous_values :
  sim.Propagate (K := mat.sequential) autonomous (Some [1%float; 1%float]) None None
    = Ret [3%float; 7%float] /\
  sim.Observe (K := mat.sequential) autonomous (Some [1%float; 1%float]) None None
    = Ret [1%float].
Proof. split; reflexivity. Qed.

(** C1. [Propagate] compares the length of [u] with the output dimension
    (the row count of [C], of [D] in [Fall]), not with the control dimension
    [m], the column count of [B]. On the model with [n = 1], [m = 2],
    [p = 1]: a [u] of length 1, which differs from [m], passes the check and
    the product [B.u] panics; a [u] of length [m = 2] is rejected. *)
Theorem propagate_checks_u_against_outputs {K : mat.Kernel} :
  sim.Propagate two_controls (Some [0%float]) (Some [1%float]) None
    = Panic mat.ErrShape /\
  sim.Propagate two_controls (Some [0%float]) (Some [1%float; 1%float]) None
    = Err (Errorf "Invalid input vector" []) /\
  model.Propagate two_controls_fall (Some [0%float]) (Some [1%float]) None
    = Panic mat.ErrShape /\
  model.Propagate two_controls_fall (Some [0%float]) (Some [1%float; 1%float]) None
    = Err (Errorf "Invalid input vector" []).
Proof. repeat split; reflexivity. Qed.




(** C7, as stated, fails: no choice of matrices makes construction return
    an error. *)
Lemma create_never_fails :
  ~ exists (A B C D : mat.DensePtr) (e : error),
      sim.NewBaseModel A B C D = Err e \/ model.NewFall A B C D = Err e.
Proof. intros (A & B & C & D & e & [H|H]); discriminate H. Qed.

(** C7, amended. Construction validates nothing: for all matrices, also ones
    that violate the dimensional invariant, it returns a model holding
    exactly the given matrices. *)
Theorem create_accepts_all (A B C D : mat.DensePtr) :
  sim.NewBaseModel A B C D = Ret (sim.mkBaseModel A B C D) /\
  model.NewFall A B C D = Ret (model.mkFall A B C D).
Proof. split; reflexivity. Qed.

(** A non-square [A] is accepted, although no [n], [p] make it valid. *)
Lemma create_accepts_non_square :
  sim.NewBaseModel (Some a12) None (Some c12) None
    = Ret (sim.mkBaseModel (Some a12) None (Some c12) None) /\
  forall n p, ~ invariant (Some a12) None (Some c12) None n p.
Proof.
  split; [reflexivity|]. intros n p (H1 & H2 & _). cbn in H1, H2. congruence.
Qed.

(** C8, as stated, fails for [Fall]: with [D] absent the invariant holds and
    [Dims] panics. *)
Lemma fall_dims_without_D :
  invariant (model.A autonomous_fall) (model.B autonomous_fall)
            (model.C autonomous_fall) (model.D autonomous_fall) 2 1 /\
  model.Dims autonomous_fall = Panic NilDereference.
Proof.
  split; [|reflexivity]. cbn.
  split; [reflexivity|]. split; [reflexivity|].
  split; [reflexivity|]. split; [reflexivity|]. split; intros ? [=].
Qed.

(** C8, amended. Under the dimensional invariant, [BaseModel.Dims] returns
    [(n, p)], the row counts of [A] and [C]; [Fall.Dims], which reads the
    output dimension from [D], returns the same pair when [D] is present. *)
Theorem dims_state_output (A B C D : mat.DensePtr) (n p : nat) :
  invariant A B C D n p ->
  exists a c, A = Some a /\ C = Some c /\ mat.Rows a = n /\ mat.Rows c = p /\
    sim.Dims (sim.mkBaseModel A B C D) = Ret (mat.Rows a, mat.Rows c) /\
    (is_Some D ->
     model.Dims (model.mkFall A B C D) = Ret (mat.Rows a, mat.Rows c)).
Proof.
  unfold invariant. destruct A as [a|]; [|contradiction].
  destruct C as [c|]; [|contradiction].
  intros (Hra & Hca & Hrc & Hcc & _ & HD).
  exists a, c. repeat split; try assumption.
  - unfold sim.Dims. cbn. now rewrite Hca, Hra.
  - intros [d ->]. unfold model.Dims. cbn.
    rewrite (HD d eq_refl), Hca, Hra, Hrc. reflexivity.
Qed.

Lemma dims_state_output_witness :
  exists a c, Some m11 = Some a /\ Some m11 = Some c /\
    mat.Rows a = 1 /\ mat.Rows c = 1 /\
    sim.Dims (sim.mkBaseModel (Some m11) (Some b12) (Some m11) (Some d12))
      = Ret (mat.Rows a, mat.Rows c) /\
    (is_Some (Some d12) ->
     model.Dims (model.mkFall (Some m11) (Some b12) (Some m11) (Some d12))
       = Ret (mat.Rows a, mat.Rows c)).
Proof.
  apply (dims_state_output (Some m11) (Some b12) (Some m11) (Some d12) 1 1).
  cbn.
  split; [reflexivity|]. split; [reflexivity|].
  split; [reflexivity|]. split; [reflexivity|]. split.
  - intros ? [= <-]. split; [reflexivity|]. now intros ? [= <-].
  - now intros ? [= <-].
Defined.

(** C10. In [Fall], [Propagate] and [Observe] with [u] absent panic on a nil
    dereference, whatever the model and the other arguments: they return
    (a vector or an error) only if [u] is present. *)
Theorem fall_requires_u {K : mat.Kernel} (b : model.Fall) (x v : mat.Vector) :
  model.Propagate b x None v = Panic NilDereference /\
  model.Observe b x None v = Panic NilDereference /\
  forall u, (is_panic (model.Propagate b x u v) = false \/
             is_panic (model.Observe b x u v) = false) -> is_Some u.
Proof.
  assert (HP : model.Propagate b x None v = Panic NilDereference).
  { unfold model.Propagate, model.Dims. destruct b as [[a|] B C [d|]]; reflexivity. }
  assert (HO : model.Observe b x None v = Panic NilDereference).
  { unfold model.Observe, model.Dims. destruct b as [[a|] B C [d|]]; reflexivity. }
  split; [exact HP|]. split; [exact HO|].
  intros [u|] H; [now exists u|]. rewrite HP, HO in H. now destruct H.
Qed.

(** With [A] and [D] present it is the read of [u]'s length that panics:
    the dimensions are computed, and a present [u] of the wrong length is
    an error. *)
Lemma fall_dims_then_u {K : mat.Kernel} (a d : mat.Dense) (B C : mat.DensePtr) (x : mat.Vector) :
  model.Dims (model.mkFall (Some a) B C (Some d)) = Ret (mat.Cols a, mat.Rows d) /\
  forall uv, length uv <> mat.Rows d ->
    model.Propagate (model.mkFall (Some a) B C (Some d)) x (Some uv) None
      = Err (Errorf "Invalid input vector" []).
Proof.
  split; [reflexivity|]. intros uv Hu. unfold model.Propagate, model.Dims. cbn.
  destruct (Nat.eqb_spec (length uv) (mat.Rows d)); [contradiction|reflexivity].
Qed.

(** ** Binary64 facts *)

Section Binary64.

Let one_SF : spec_float := S754_finite false 4503599627370496 (-52).

Lemma Prim2SF_one : Prim2SF 1%float = one_SF.
Proof. reflexivity. Qed.

Lemma Prim2SF_zero : Prim2SF 0%float = S754_zero false.
Proof. reflexivity. Qed.

Lemma shr_1_xO (p : positive) :
  shr_1 (Build_shr_record (Z.pos p~0) false false)
  = Build_shr_record (Z.pos p) false false.
Proof. reflexivity. Qed.

Lemma shr_1_iter (k : nat) (p : positive) :
  Nat.iter k shr_1 (Build_shr_record (Z.pos (Nat.iter k xO p)) false false)
  = Build_shr_record (Z.pos p) false false.
Proof.
  induction k as [|k IH]; [reflexivity|].
  rewrite Nat.iter_succ_r.
  change (Nat.iter (S k) xO p) with (xO (Nat.iter k xO p)).
  rewrite shr_1_xO. exact IH.
Qed.

Lemma iter_pos_nat {T} (f : T -> T) (n : positive) (x : T) :
  SpecFloat.iter_pos f n x = Nat.iter (Pos.to_nat n) f x.
Proof.
  revert x. induction n as [n IH|n IH|]; intros x; cbn [SpecFloat.iter_pos].
  - rewrite !IH, Pos2Nat.inj_xI.
    replace (S (2 * Pos.to_nat n)) with (Pos.to_nat n + (Pos.to_nat n + 1)) by lia.
    rewrite !Nat.iter_add. reflexivity.
  - rewrite !IH, Pos2Nat.inj_xO.
    replace (2 * Pos.to_nat n) with (Pos.to_nat n + Pos.to_nat n) by lia.
    rewrite Nat.iter_add. reflexivity.
  - reflexivity.
Qed.

Lemma digits2_pos_iter_xO (k : nat) (p : positive) :
  Z.pos (digits2_pos (Nat.iter k xO p)) = (Z.pos (digits2_pos p) + Z.of_nat k)%Z.
Proof.
  induction k as [|k IH]; [cbn; lia|].
  change (Nat.iter (S k) xO p) with (xO (Nat.iter k xO p)).
  cbn [digits2_pos]. rewrite Pos2Z.inj_succ, IH. lia.
Qed.

Lemma mul_pow2_iter (k : nat) (p : positive) :
  (p * Nat.iter k xO 1)%positive = Nat.iter k xO p.
Proof.
  induction k as [|k IH]; [apply Pos.mul_1_r|].
  change (Nat.iter (S k) xO 1%positive) with (xO (Nat.iter k xO 1%positive)).
  change (Nat.iter (S k) xO p) with (xO (Nat.iter k xO p)).
  rewrite Pos.mul_xO_r. f_equal. exact IH.
Qed.

(** Multiplying a mantissa by [2^52] and shifting it back by 52 bits loses
    nothing, so the product with [1] rounds to the operand itself. *)
Lemma SFmul_one_r (x : spec_float) :
  valid_binary x = true -> SF64mul x one_SF = x.
Proof.
  destruct x as [s| s| |s m e]; intros Hv.
  - cbn. now rewrite xorb_false_r.
  - cbn. now rewrite xorb_false_r.
  - reflexivity.
  - unfold SF64mul, SFmul, one_SF. rewrite xorb_false_r.
    cbv beta iota delta [SpecFloat.valid_binary bounded canonical_mantissa] in Hv.
    apply andb_prop in Hv as [Hc Hb]. apply Z.eqb_eq in Hc.
    change 4503599627370496%positive with (Nat.iter 52 xO 1%positive).
    rewrite mul_pow2_iter.
    unfold binary_round_aux, shr_fexp.
    cbn [Zdigits2]. rewrite digits2_pos_iter_xO.
    replace (Z.pos (digits2_pos m) + Z.of_nat 52 + (e + -52))%Z
      with (Z.pos (digits2_pos m) + e)%Z by lia.
    rewrite Hc.
    replace (e - (e + -52))%Z with 52%Z by lia.
    cbn [shr shr_record_of_loc].
    rewrite iter_pos_nat.
    change (Pos.to_nat 52) with 52.
    rewrite shr_1_iter.
    cbn [shr_m loc_of_shr_record round_nearest_even shr_record_of_loc Zdigits2].
    replace (e + -52 + 52)%Z with e by lia.
    rewrite Hc, Z.sub_diag. cbn [shr shr_m]. rewrite Hb. reflexivity.
Qed.

Lemma mul_one_r (r : float) : (r * 1)%float = r.
Proof.
  apply Prim2SF_inj. rewrite FloatAxioms.mul_spec, Prim2SF_one.
  apply SFmul_one_r, Prim2SF_valid.
Qed.

(** A zero weight is [+0] or [-0]. *)
Lemma zero_weight_SF (w : float) :
  zero_weight w <-> exists s, Prim2SF w = S754_zero s.
Proof.
  unfold zero_weight, PrimFloat.is_zero. rewrite FloatAxioms.eqb_spec.
  change (Prim2SF zero) with (S754_zero false).
  destruct (Prim2SF w) as [s| s| |s m e].
  - split; [now exists s|reflexivity].
  - split; [|intros [? H]; discriminate H].
    unfold SFeqb, SFcompare. destruct s; intros H; discriminate H.
  - split; [intros H; discriminate H|intros [? H]; discriminate H].
  - split; [|intros [? H]; discriminate H].
    unfold SFeqb, SFcompare. destruct s; intros H; discriminate H.
Qed.

Lemma zero_weight_add (a b : float) :
  zero_weight a -> zero_weight b -> zero_weight (a + b)%float.
Proof.
  rewrite !zero_weight_SF. intros [sa Ha] [sb Hb].
  rewrite FloatAxioms.add_spec, Ha, Hb. unfold SF64add, SFadd.
  destruct sa, sb; eauto.
Qed.

(** The product with a zero is a zero or NaN, and neither is below a zero. *)
Lemma mul_zero_not_below_zero (r z c : float) :
  zero_weight z -> zero_weight c -> (r * z <? c)%float = false.
Proof.
  rewrite !zero_weight_SF. intros [sz Hz] [sc Hc].
  rewrite FloatAxioms.ltb_spec, FloatAxioms.mul_spec, Hz, Hc. unfold SF64mul, SFmul.
  destruct (Prim2SF r); reflexivity.
Qed.

End Binary64.

(** ** Binary search *)

(** [h := int(uint(i+j) >> 1)] lies between [i] and [j]. *)
Lemma midpoint (i j : nat) : i < j -> i <= (i + j) / 2 < j.
Proof.
  intros H. split.
  - apply Nat.div_le_lower_bound; lia.
  - apply Nat.Div0.div_lt_upper_bound; lia.
Qed.

Section Search.

Variable f : nat -> bool.

(** The loop of [sort.Search] stops within [j - i] iterations: more fuel
    does not change its result. *)
Lemma search_loop_fuel (fuel fuel' i j : nat) :
  j - i <= fuel -> j - i <= fuel' ->
  rnd.search_loop fuel f i j = rnd.search_loop fuel' f i j.
Proof.
  revert fuel' i j. induction fuel as [|fuel IH]; intros fuel' i j H H'.
  - destruct fuel' as [|fuel']; [reflexivity|]. cbn [rnd.search_loop].
    destruct (Nat.ltb_spec i j); [lia|reflexivity].
  - destruct fuel' as [|fuel'].
    + cbn [rnd.search_loop]. destruct (Nat.ltb_spec i j); [lia|reflexivity].
    + cbn [rnd.search_loop]. destruct (Nat.ltb_spec i j) as [Hlt|]; [|reflexivity].
      destruct (midpoint i j Hlt) as [Hl Hu].
      destruct (f ((i + j) / 2)); cbn [negb]; apply IH; lia.
Qed.

Lemma search_loop_bounds (fuel i j : nat) :
  i <= j -> i <= rnd.search_loop fuel f i j <= j.
Proof.
  revert i j. induction fuel as [|fuel IH]; intros i j Hij; cbn [rnd.search_loop]; [lia|].
  destruct (Nat.ltb_spec i j) as [Hlt|]; [|lia].
  destruct (midpoint i j Hlt) as [Hl Hu].
  destruct (f ((i + j) / 2)); cbn [negb].
  - specialize (IH i ((i + j) / 2)). lia.
  - specialize (IH ((i + j) / 2 + 1) j). lia.
Qed.

Lemma search_loop_all_true (fuel i j : nat) :
  (forall h, i <= h < j -> f h = true) -> j - i <= fuel ->
  rnd.search_loop fuel f i j = i.
Proof.
  revert i j. induction fuel as [|fuel IH]; intros i j Hf Hfuel; cbn [rnd.search_loop]; [reflexivity|].
  destruct (Nat.ltb_spec i j) as [Hlt|]; [|reflexivity].
  destruct (midpoint i j Hlt) as [Hl Hu].
  rewrite Hf by lia. cbn [negb]. apply IH; [|lia].
  intros h Hh. apply Hf. lia.
Qed.

Lemma search_loop_all_false (fuel i j : nat) :
  (forall h, i <= h < j -> f h = false) -> j - i <= fuel -> i <= j ->
  rnd.search_loop fuel f i j = j.
Proof.
  revert i j. induction fuel as [|fuel IH]; intros i j Hf Hfuel Hij; cbn [rnd.search_loop]; [lia|].
  destruct (Nat.ltb_spec i j) as [Hlt|]; [|lia].
  destruct (midpoint i j Hlt) as [Hl Hu].
  rewrite Hf by lia. cbn [negb]. apply IH; [|lia|lia].
  intros h Hh. apply Hf. lia.
Qed.

Lemma Search_all_true (n : nat) :
  (forall h, h < n -> f h = true) -> rnd.Search n f = 0.
Proof.
  intros Hf. unfold rnd.Search. apply search_loop_all_true; [|lia].
  intros h Hh. apply Hf. lia.
Qed.

Lemma Search_all_false (n : nat) :
  (forall h, h < n -> f h = false) -> rnd.Search n f = n.
Proof.
  intros Hf. unfold rnd.Search. apply search_loop_all_false; [|lia|lia].
  intros h Hh. apply Hf. lia.
Qed.

End Search.

(** ** Roulette-wheel draws *)

Lemma length_cumsum_from (acc : float) (s : list float) :
  length (rnd.cumsum_from acc s) = length s.
Proof. revert acc. induction s as [|x s IH]; intros acc; cbn; [|rewrite IH]; reflexivity. Qed.

Lemma length_CumSum (s : list float) : length (rnd.CumSum s) = length s.
Proof. destruct s; cbn; [|rewrite length_cumsum_from]; reflexivity. Qed.

Lemma length_draw_loop (cdf : list float) (k : nat) (src : rnd.source) :
  length (fst (rnd.draw_loop cdf k src)) = k.
Proof.
  revert src. induction k as [|k IH]; intros src; cbn; [reflexivity|].
  specialize (IH (fun i => src (S i))).
  destruct (rnd.draw_loop cdf k _). cbn in *. now rewrite IH.
Qed.

Lemma unit_draws_tail (src : rnd.source) :
  unit_draws src -> unit_draws (fun i => src (S i)).
Proof. intros H i. apply H. Qed.

(** With the cumulative weights [[1; 1; 1]] every unit draw selects index 0. *)
Lemma draw_loop_first_weight (k : nat) (src : rnd.source) :
  unit_draws src ->
  fst (rnd.draw_loop [1%float; 1%float; 1%float] k src) = repeat 0 k.
Proof.
  revert src. induction k as [|k IH]; intros src Hsrc; [reflexivity|].
  cbn [rnd.draw_loop rnd.next].
  specialize (IH _ (unit_draws_tail _ Hsrc)).
  destruct (rnd.draw_loop _ k _) as [rest src2]. cbn [fst] in *. subst rest.
  cbn [repeat]. f_equal.
  apply Search_all_true. intros h Hh.
  change (nth (length [1%float; 1%float; 1%float] - 1) _ _) with 1%float.
  rewrite mul_one_r.
  replace (nth h [1%float; 1%float; 1%float] 0%float) with 1%float.
  - apply Hsrc.
  - cbn in Hh. destruct h as [|[|[|h]]]; try reflexivity. lia.
Qed.

Lemma cumsum_from_zero (acc : float) (s : list float) :
  zero_weight acc -> Forall zero_weight s ->
  Forall zero_weight (rnd.cumsum_from acc s).
Proof.
  intros Hacc Hs. revert acc Hacc.
  induction Hs as [|x s Hx Hs IH]; intros acc Hacc; cbn; constructor.
  - now apply zero_weight_add.
  - apply IH. now apply zero_weight_add.
Qed.

Lemma CumSum_zero (s : list float) :
  Forall zero_weight s -> Forall zero_weight (rnd.CumSum s).
Proof.
  intros [|x s' Hx Hs]; cbn; constructor; [assumption|].
  now apply cumsum_from_zero.
Qed.

Lemma Forall_zero_nth (l : list float) (i : nat) :
  Forall zero_weight l -> i < length l -> zero_weight (nth i l 0%float).
Proof.
  intros H. revert i. induction H as [|x l Hx Hl IH]; intros [|i] Hi; cbn in *;
    try lia; [assumption|]. apply IH. lia.
Qed.

(** With cumulative weights that are all zero, every draw selects the index
    one past the end, whatever the generator yields. *)
Lemma draw_loop_zero (cdf : list float) (k : nat) (src : rnd.source) :
  Forall zero_weight cdf -> 0 < length cdf ->
  fst (rnd.draw_loop cdf k src) = repeat (length cdf) k.
Proof.
  intros Hz Hlen. revert src. induction k as [|k IH]; intros src; [reflexivity|].
  cbn [rnd.draw_loop rnd.next].
  specialize (IH (fun i => src (S i))).
  destruct (rnd.draw_loop _ k _) as [rest src2]. cbn [fst] in *. subst rest.
  cbn [repeat]. f_equal.
  apply Search_all_false. intros h Hh.
  apply mul_zero_not_below_zero; apply Forall_zero_nth; (assumption || lia).
Qed.

Lemma maxAlloc_eq : maxAlloc = 281474976710656%Z.
Proof. reflexivity. Qed.

(** [make] succeeds exactly for a length that is not negative and whose
    size in bytes is within [maxAlloc]. *)
Lemma makeslice_ok_iff (size len : Z) :
  makeslice_ok size len = true <-> (0 <= len /\ len * size <= maxAlloc)%Z.
Proof.
  unfold makeslice_ok. rewrite andb_true_iff, Z.leb_le, Z.leb_le. reflexivity.
Qed.

(** [RouletteDrawN] on a non-empty weight vector and a count that [make]
    accepts. *)
Lemma RouletteDrawN_nonempty (w : list float) (n : Z) (src : rnd.source) :
  w <> [] -> (0 <= n)%Z -> (n * 8 <= maxAlloc)%Z ->
  fst (rnd.RouletteDrawN (Some w) n src)
  = Ret (fst (rnd.draw_loop (rnd.CumSum w) (Z.to_nat n) src)).
Proof.
  intros Hw Hn Hmax. unfold rnd.RouletteDrawN. cbn [rnd.is_nil rnd.len orb default].
  destruct w as [|x w]; [contradiction|]. cbn [length Nat.eqb].
  rewrite (proj2 (makeslice_ok_iff 8 n)) by lia. cbn [negb].
  now destruct (rnd.draw_loop _ _ _).
Qed.

Lemma RouletteDrawN_run (w : list float) (n : Z) (src : rnd.source) :
  w <> [] -> (0 <= n)%Z -> (n * 8 <= maxAlloc)%Z ->
  rnd.RouletteDrawN (Some w) n src
  = (Ret (fst (rnd.draw_loop (rnd.CumSum w) (Z.to_nat n) src)),
     snd (rnd.draw_loop (rnd.CumSum w) (Z.to_nat n) src)).
Proof.
  intros Hw Hn Hmax. unfold rnd.RouletteDrawN. cbn [rnd.is_nil rnd.len orb default].
  destruct w as [|x w]; [contradiction|]. cbn [length Nat.eqb].
  rewrite (proj2 (makeslice_ok_iff 8 n)) by lia. cbn [negb].
  now destruct (rnd.draw_loop _ _ _).
Qed.

(** C4, as stated, fails: a negative count with non-empty weights is neither
    an error nor a result, [make([]int, n)] panics. (So does a count too
    large to allocate.) *)
Lemma draw_negative_count_panics :
  fst (rnd.RouletteDrawN (Some [1%float]) (-1) halves)
    = Panic MakeSliceLenOutOfRange /\
  is_ret (fst (rnd.RouletteDrawN (Some [1%float]) (-1) halves)) = false.
Proof. split; reflexivity. Qed.

(** C4, amended. For every count [n], [RouletteDrawN] returns an error
    exactly when [p] is nil or empty, and the error is the invalid-weights
    one; for non-empty [p] and a count [n >= 0] that [make] can allocate
    ([8n] bytes within [maxAlloc]) it returns [n] indices. *)
Theorem draw_error_iff_no_weights (p : option (list float)) (n : Z)
    (src : rnd.source) :
  (is_err (fst (rnd.RouletteDrawN p n src)) = true
   <-> p = None \/ p = Some []) /\
  (forall e, fst (rnd.RouletteDrawN p n src) = Err e -> e = rnd.InvalidWeights p) /\
  ((exists w, p = Some w /\ w <> []) -> (0 <= n)%Z -> (n * 8 <= maxAlloc)%Z ->
   exists indices, fst (rnd.RouletteDrawN p n src) = Ret indices /\
                   length indices = Z.to_nat n).
Proof.
  split; [|split].
  - unfold rnd.RouletteDrawN. destruct p as [[|x w]|]; cbn [rnd.is_nil rnd.len
      orb negb length Nat.eqb fst is_err].
    + split; [now right|reflexivity].
    + destruct (makeslice_ok 8 n); cbn [negb]; [destruct (rnd.draw_loop _ _ _)|];
        cbn [fst is_err]; (split; [discriminate|intros [H|H]; discriminate H]).
    + split; [now left|reflexivity].
  - intros e. unfold rnd.RouletteDrawN. destruct p as [[|x w]|]; cbn [rnd.is_nil
      rnd.len orb negb length Nat.eqb fst].
    + now intros [= <-].
    + destruct (makeslice_ok 8 n); cbn [negb]; [destruct (rnd.draw_loop _ _ _)|];
        cbn [fst]; discriminate.
    + now intros [= <-].
  - intros (w & -> & Hw) Hn Hmax. rewrite RouletteDrawN_nonempty by assumption.
    eexists; split; [reflexivity|]. apply length_draw_loop.
Qed.

(** C5, as stated, fails: not every count [k >= 1] gives [k] indices. For
    [k = 2^62] the slice of indices cannot be allocated and
    [make([]int, k)] panics, whatever the generator yields. *)
Lemma draw_huge_count_panics :
  (1 <= 2 ^ 62)%Z /\ unit_draws halves /\
  fst (rnd.RouletteDrawN (Some [1%float; 0%float; 0%float]) (2 ^ 62) halves)
    = Panic MakeSliceLenOutOfRange.
Proof.
  split; [lia|]. split; [intros i; split; reflexivity|]. reflexivity.
Qed.

(** C5, amended. With weights [[1; 0; 0]], unit draws and every count
    [k >= 1] that [make] can allocate ([8k] bytes within [maxAlloc]),
    [RouletteDrawN] returns [k] indices, all 0. *)
Theorem draw_single_weight (k : Z) (src : rnd.source) :
  (1 <= k)%Z -> (k * 8 <= maxAlloc)%Z -> unit_draws src ->
  exists indices,
    fst (rnd.RouletteDrawN (Some [1%float; 0%float; 0%float]) k src) = Ret indices /\
    Z.of_nat (length indices) = k /\
    Forall (fun i => i = 0) indices.
Proof.
  intros Hk Hmax Hsrc. rewrite RouletteDrawN_nonempty by (discriminate || lia).
  change (rnd.CumSum [1%float; 0%float; 0%float])
    with [1%float; 1%float; 1%float].
  rewrite draw_loop_first_weight by assumption.
  eexists; split; [reflexivity|]. split.
  - rewrite repeat_length. lia.
  - induction (Z.to_nat k); cbn; constructor; auto.
Qed.

Lemma halves_unit : unit_draws halves.
Proof. intros i. split; reflexivity. Qed.

Lemma draw_single_weight_witness :
  exists indices,
    fst (rnd.RouletteDrawN (Some [1%float; 0%float; 0%float]) 3 halves) = Ret indices /\
    Z.of_nat (length indices) = 3%Z /\
    Forall (fun i => i = 0) indices.
Proof.
  apply (draw_single_weight 3 halves).
  - lia.
  - rewrite maxAlloc_eq. lia.
  - intros i. split; reflexivity.
Defined.

(** For weights that are all zero the result is [k] times the length of
    [p], an index one past the end of [p]. *)
Lemma draw_zero_weights (w : list float) (k : Z) (src : rnd.source) :
  w <> [] -> Forall zero_weight w -> (0 <= k)%Z -> (k * 8 <= maxAlloc)%Z ->
  fst (rnd.RouletteDrawN (Some w) k src) = Ret (repeat (length w) (Z.to_nat k)).
Proof.
  intros Hw Hz Hk Hmax. rewrite RouletteDrawN_nonempty by assumption.
  rewrite draw_loop_zero.
  - now rewrite length_CumSum.
  - now apply CumSum_zero.
  - rewrite length_CumSum. destruct w; [contradiction|cbn; lia].
Qed.

(** C6. On the weights [[0; 0]] and one draw, whatever the generator
    yields, [RouletteDrawN] returns the index 2 with no error: it is not an
    index into the two weights. *)
Theorem draw_zero_weights_out_of_range (src : rnd.source) :
  fst (rnd.RouletteDrawN (Some [0%float; 0%float]) 1 src) = Ret [2] /\
  ~ Forall (fun i => i < length [0%float; 0%float]) [2].
Proof.
  split.
  - apply (draw_zero_weights [0%float; 0%float] 1 src);
      [discriminate| |lia|rewrite maxAlloc_eq; lia].
    repeat constructor.
  - intros H. inversion H; subst. cbn in *. lia.
Qed.

(** ** Correlated Gaussian samples *)

Section WithCovN.

Variable Factorize : mat.Dense -> option (mat.Dense * list float).

Lemma InvalidSamples_not_SVDFailed (n : Z) : rnd.InvalidSamples n <> rnd.SVDFailed.
Proof. discriminate. Qed.

Lemma WithCovN_few_samples {K : mat.Kernel} (cov : mat.DensePtr) (n : Z) (src : rnd.source) :
  (n <= 1)%Z ->
  rnd.WithCovN Factorize cov n src = (Err (rnd.InvalidSamples n), src).
Proof.
  intros Hn. unfold rnd.WithCovN. destruct (Z.leb_spec n 1); [reflexivity|lia].
Qed.

(** From two samples on, the only error is the failed factorization. *)
Lemma WithCovN_many_samples {K : mat.Kernel} (cov : mat.DensePtr) (n : Z) (src : rnd.source)
    (e : error) :
  (2 <= n)%Z ->
  fst (rnd.WithCovN Factorize cov n src) = Err e ->
  e = rnd.SVDFailed /\
  exists c, cov = Some c /\ Factorize c = None.
Proof.
  intros Hn. unfold rnd.WithCovN. destruct (Z.leb_spec n 1) as [|_]; [lia|].
  destruct cov as [c|]; [|discriminate].
  destruct (Factorize c) as [[U vals]|] eqn:EF.
  - intros H. exfalso. revert H.
    set (r := _ ≫= _).
    assert (Hr : is_err r = false).
    { apply is_err_bind; auto with no_err. }
    destruct r as [U'|e'|pn]; [|discriminate Hr|discriminate].
    destruct (negb (makeslice_ok _ _)); [discriminate|].
    destruct (rnd.fill _ src) as [data src'].
    destruct (negb _); [discriminate|]. cbn [fst].
    set (r := _ ≫= _).
    assert (Hr' : is_err r = false).
    { apply is_err_bind; auto with no_err. }
    destruct r; [discriminate|discriminate Hr'|discriminate].
  - intros [= <-]. split; [reflexivity|]. now exists c.
Qed.

End WithCovN.

(** C2. [WithCovN] returns the invalid-sample-count error exactly when
    [n <= 1]; for [n >= 2] the only error it can return is the failed
    factorization. This holds for every behaviour of the SVD. *)
Theorem samples_error_iff_count_at_most_one {K : mat.Kernel}
    (Factorize : mat.Dense -> option (mat.Dense * list float))
    (cov : mat.DensePtr) (n : Z) (src : rnd.source) :
  (fst (rnd.WithCovN Factorize cov n src) = Err (rnd.InvalidSamples n)
   <-> (n <= 1)%Z) /\
  ((2 <= n)%Z -> forall e,
     fst (rnd.WithCovN Factorize cov n src) = Err e -> e = rnd.SVDFailed).
Proof.
  split; [split|].
  - intros H. destruct (Z.le_gt_cases n 1) as [|Hn]; [assumption|].
    apply WithCovN_many_samples in H as [H _]; [|lia].
    now apply InvalidSamples_not_SVDFailed in H.
  - intros Hn. now rewrite WithCovN_few_samples.
  - intros Hn e H. now apply WithCovN_many_samples in H as [H _].
Qed.

(** ** The store *)

Section Store.
Import heap.

Implicit Types (h : heap) (l : loc) (o : object).

Lemma lookup_old h (ext : list object) l o :
  h !! l = Some o -> (h ++ ext) !! l = Some o.
Proof. intros H. rewrite lookup_app_l; [assumption|]. now apply lookup_lt_Some in H. Qed.

Lemma lookup_new_0 h o (ext : list object) : (h ++ o :: ext) !! length h = Some o.
Proof. now rewrite list_lookup_middle. Qed.

Lemma lookup_new_1 h o o' (ext : list object) :
  (h ++ o :: o' :: ext) !! S (length h) = Some o'.
Proof.
  change (h ++ o :: o' :: ext) with (h ++ [o] ++ o' :: ext).
  rewrite app_assoc. rewrite (list_lookup_middle (h ++ [o]) ext o' (S (length h))).
  - reflexivity.
  - rewrite length_app. cbn. lia.
Qed.

Lemma insert_new_0 h o o' (ext : list object) :
  <[length h := o']> (h ++ o :: ext) = h ++ o' :: ext.
Proof.
  rewrite insert_app_r_alt by lia. now rewrite Nat.sub_diag.
Qed.

Lemma insert_new_1 h o1 o o' (ext : list object) :
  <[S (length h) := o']> (h ++ o1 :: o :: ext) = h ++ o1 :: o' :: ext.
Proof.
  rewrite insert_app_r_alt by lia.
  replace (S (length h) - length h) with 1 by lia. reflexivity.
Qed.

Lemma take_drop_zeros (n : nat) (buf : list float) :
  n <= length buf ->
  take n buf ++ drop n (repeat 0%float n) = take n buf.
Proof.
  intros _. rewrite drop_ge; [apply app_nil_r|]. now rewrite repeat_length.
Qed.

Lemma load_vec_eq h l N d :
  h !! l = Some (VecDense N d) -> load_vec (Some l) h = (Ret (N, d), h).
Proof. intros H. unfold load_vec. now rewrite H. Qed.

Lemma load_sym_eq h l N d :
  h !! l = Some (SymDense N d) -> load_sym (Some l) h = (Ret (N, d), h).
Proof. intros H. unfold load_sym. now rewrite H. Qed.

Lemma load_floats_eq h l data :
  h !! l = Some (Floats data) -> load_floats (Some l) h = (Ret data, h).
Proof. intros H. unfold load_floats. now rewrite H. Qed.

(** A fresh vector: two objects are added, nothing else changes. *)
Lemma NewVecDense_eq h (n : nat) :
  0 < n ->
  NewVecDense n h
  = (Ret (S (length h)),
     h ++ [Floats (repeat 0%float n); VecDense n (Some (length h))]).
Proof.
  intros Hn. unfold NewVecDense. destruct (Nat.eqb_spec n 0); [lia|].
  unfold mbind, M_bind, bindM, alloc. rewrite length_app, <- app_assoc. cbn.
  now rewrite Nat.add_1_r.
Qed.

Lemma NewSymDense_eq h (n : nat) :
  0 < n ->
  NewSymDense n h
  = (Ret (S (length h)),
     h ++ [Floats (repeat 0%float (n * n)); SymDense n (Some (length h))]).
Proof.
  intros Hn. unfold NewSymDense. destruct (Nat.eqb_spec n 0); [lia|].
  unfold mbind, M_bind, bindM, alloc. rewrite length_app, <- app_assoc. cbn.
  now rewrite Nat.add_1_r.
Qed.

End Store.

(** ** [InitCond] accessors *)

Section Accessors.
Import heap.

Implicit Types (h : heap) (c : InitCond.InitCond).

Ltac run := unfold mbind, M_bind, bindM, ret, store_floats, store; cbn beta iota.

(** [State] adds a fresh array holding the state and a fresh header for it;
    the store it was called in is untouched. Both packages agree. *)
Lemma State_model_eq h c n xs k cs :
  holds h c n xs k cs ->
  model.State c h
  = (Ret (S (length h)), h ++ [Floats xs; VecDense n (Some (length h))]).
Proof.
  intros [(sl & sd & buf & Hst & Hsl & Hsd & -> & Hlen & Hn) _].
  unfold model.State, Len, CopyVec. rewrite Hst. run.
  rewrite (load_vec_eq _ _ _ _ Hsl). run.
  rewrite NewVecDense_eq by assumption. run.
  rewrite (load_vec_eq _ _ _ _ (lookup_new_1 _ _ _ _)). run.
  rewrite (load_vec_eq _ _ _ _ (lookup_old _ _ _ _ Hsl)). run.
  rewrite bool_decide_eq_false_2.
  2:{ intros [= E]. apply lookup_lt_Some in Hsl. lia. }
  rewrite (load_floats_eq _ _ _ (lookup_old _ _ _ _ Hsd)). run.
  rewrite (load_floats_eq _ _ _ (lookup_new_0 _ _ _)). run.
  rewrite Nat.min_id, insert_new_0, take_drop_zeros by assumption.
  reflexivity.
Qed.

Lemma State_sim_eq h c n xs k cs :
  holds h c n xs k cs ->
  sim.State c h
  = (Ret (S (length h)), h ++ [Floats xs; VecDense n (Some (length h))]).
Proof.
  intros [(sl & sd & buf & Hst & Hsl & Hsd & -> & Hlen & Hn) _].
  unfold sim.State, Len, CloneFromVec. rewrite Hst. run.
  rewrite (load_vec_eq _ _ _ _ Hsl). run.
  rewrite NewVecDense_eq by assumption. run.
  rewrite (load_vec_eq _ _ _ _ (lookup_new_1 _ _ _ _)). run.
  rewrite (load_vec_eq _ _ _ _ (lookup_old _ _ _ _ Hsl)). run.
  rewrite bool_decide_eq_false_2.
  2:{ intros [= E]. apply lookup_lt_Some in Hsl. lia. }
  rewrite (load_floats_eq _ _ _ (lookup_old _ _ _ _ Hsd)). run.
  rewrite (load_floats_eq _ _ _ (lookup_new_0 _ _ _)). run.
  rewrite repeat_length, Nat.leb_refl. run.
  rewrite insert_new_1.
  rewrite (load_floats_eq _ _ _ (lookup_new_0 _ _ _)). run.
  rewrite insert_new_0, take_drop_zeros by assumption.
  reflexivity.
Qed.

Lemma Cov_eq h c n xs k cs :
  holds h c n xs k cs ->
  InitCond.Cov c h
  = (Ret (S (length h)),
     h ++ [Floats (copy_upper k k k (repeat 0%float (k * k)) cs);
           SymDense k (Some (length h))]).
Proof.
  intros [_ (cl & cd & Hcv & Hcl & Hcd & Hlen & Hk)].
  unfold InitCond.Cov, Symmetric, CopySym. rewrite Hcv. run.
  rewrite (load_sym_eq _ _ _ _ Hcl). run.
  rewrite NewSymDense_eq by assumption. run.
  rewrite (load_sym_eq _ _ _ _ (lookup_old _ _ _ _ Hcl)). run.
  rewrite (load_sym_eq _ _ _ _ (lookup_new_1 _ _ _ _)). run.
  rewrite Nat.min_id. destruct (Nat.eqb_spec k 0); [lia|].
  rewrite (load_floats_eq _ _ _ (lookup_old _ _ _ _ Hcd)). run.
  rewrite (load_floats_eq _ _ _ (lookup_new_0 _ _ _)). run.
  rewrite insert_new_0. reflexivity.
Qed.

End Accessors.

Section Independence.
Import heap.

Implicit Types (h : heap) (c : InitCond.InitCond) (l : loc).

Lemma preserved_app h (ext : list object) : preserved h (h ++ ext).
Proof. intros l o H. now apply lookup_old. Qed.

Lemma preserved_trans h1 h2 h3 :
  preserved h1 h2 -> preserved h2 h3 -> preserved h1 h3.
Proof. intros H12 H23 l o H. auto. Qed.

(** What a reader sees of the old store survives. *)
Lemma holds_preserved h h' c n xs k cs :
  preserved h h' -> holds h c n xs k cs -> holds h' c n xs k cs.
Proof.
  intros Hp [(sl & sd & buf & Hst & Hsl & Hsd & Hx) (cl & cd & Hcv & Hcl & Hcd & Hc)].
  split.
  - exists sl, sd, buf. split; [assumption|]. split; [now apply Hp|].
    split; [now apply Hp|assumption].
  - exists cl, cd. split; [assumption|]. split; [now apply Hp|].
    split; [now apply Hp|assumption].
Qed.

Lemma vec_entries_preserved h h' l ys :
  preserved h h' -> vec_entries h l = Some ys -> vec_entries h' l = Some ys.
Proof.
  intros Hp. unfold vec_entries.
  destruct (h !! l) as [[data|N [d|]|N d]|] eqn:E; try discriminate.
  - rewrite (Hp _ _ E).
    destruct (h !! d) as [[data| |]|] eqn:E'; try discriminate.
    now rewrite (Hp _ _ E').
  - now rewrite (Hp _ _ E).
Qed.

Lemma sym_entry_preserved h h' l i j y :
  preserved h h' -> sym_entry h l i j = Some y -> sym_entry h' l i j = Some y.
Proof.
  intros Hp. unfold sym_entry.
  destruct (h !! l) as [[data|N d|N [d|]]|] eqn:E; try discriminate.
  rewrite (Hp _ _ E).
  destruct (h !! d) as [[data| |]|] eqn:E'; try discriminate.
  now rewrite (Hp _ _ E').
Qed.

(** Mutating a value that is fresh since [h] preserves [h]. *)
Lemma fresh_mutation_preserves h h1 h' l :
  preserved h h1 -> fresh_since h h1 l ->
  mutates_only (footprint h1 l) h1 h' -> preserved h h'.
Proof.
  intros Hp Hf Hm l' o H. apply Hm; [|now apply Hp].
  intros Hin. apply Hf in Hin. apply lookup_lt_Some in H. lia.
Qed.

Lemma fresh_vec h (a : object) (N : nat) :
  fresh_since h (h ++ [a; VecDense N (Some (length h))]) (S (length h)).
Proof.
  intros l'. unfold footprint. rewrite lookup_new_1.
  rewrite !elem_of_cons, elem_of_nil. intros [->|[->|[]]]; lia.
Qed.

Lemma fresh_sym h (a : object) (N : nat) :
  fresh_since h (h ++ [a; SymDense N (Some (length h))]) (S (length h)).
Proof.
  intros l'. unfold footprint. rewrite lookup_new_1.
  rewrite !elem_of_cons, elem_of_nil. intros [->|[->|[]]]; lia.
Qed.

Lemma vec_entries_new h (xs : list float) (N : nat) :
  length xs = N ->
  vec_entries (h ++ [Floats xs; VecDense N (Some (length h))]) (S (length h))
  = Some xs.
Proof.
  intros <-. unfold vec_entries. rewrite lookup_new_1, lookup_new_0.
  now rewrite firstn_all.
Qed.

(** The entries of the upper triangle after [CopySym] into a zeroed matrix
    of the same size. *)
Lemma copy_upper_lookup (k : nat) (cs : list float) (i j : nat) :
  length cs = k * k -> i <= j -> j < k ->
  copy_upper k k k (repeat 0%float (k * k)) cs !! (i * k + j) = cs !! (i * k + j).
Proof.
  intros Hlen Hij Hj. unfold copy_upper. rewrite repeat_length.
  assert (Hidx : i * k + j < k * k) by nia.
  rewrite list_lookup_fmap, lookup_seq_lt by assumption. cbn [fmap option_map option_fmap].
  rewrite Nat.add_0_l.
  assert (Hdiv : (i * k + j) / k = i).
  { rewrite Nat.div_add_l, Nat.div_small by lia. lia. }
  assert (Hmod : (i * k + j) mod k = j).
  { rewrite Nat.add_comm, Nat.Div0.mod_add. apply Nat.mod_small; lia. }
  rewrite Hdiv, Hmod.
  destruct (Nat.leb_spec i j); [|lia]. destruct (Nat.ltb_spec j k); [|lia].
  cbn [andb].
  symmetry.
  destruct (nth_lookup_or_length cs (i * k + j) 0%float) as [E|E]; [exact E|lia].
Qed.

Lemma sym_entry_new h (k : nat) (cs : list float) (i j : nat) :
  length cs = k * k -> i < k -> j < k ->
  sym_entry (h ++ [Floats (copy_upper k k k (repeat 0%float (k * k)) cs);
                   SymDense k (Some (length h))]) (S (length h)) i j
  = cs !! (Nat.min i j * k + Nat.max i j).
Proof.
  intros Hlen Hi Hj. unfold sym_entry. rewrite lookup_new_1, lookup_new_0.
  apply copy_upper_lookup; lia.
Qed.

(** [SetVec] writes to the backing array of its receiver and nowhere else. *)
Lemma SetVec_mutates h h' l (i : nat) (x : float) (r : result unit) :
  SetVec (Some l) i x h = (r, h') -> mutates_only (footprint h l) h h'.
Proof.
  unfold SetVec, load_vec, footprint, mbind, M_bind, bindM.
  destruct (h !! l) as [[data|N d|N d]|] eqn:E; try (intros [= _ <-]; now intros ? ? _).
  destruct (N <=? i); [intros [= _ <-]; now intros ? ? _|].
  unfold load_floats. destruct d as [d|]; [|intros [= _ <-]; now intros ? ? _].
  destruct (h !! d) as [[data| |]|] eqn:E'; try (intros [= _ <-]; now intros ? ? _).
  unfold store_floats, store. intros [= _ <-] l' o Hl' Ho.
  rewrite list_lookup_insert_ne; [assumption|].
  intros ->. apply Hl'. rewrite !elem_of_cons. auto.
Qed.

End Independence.

Section Construction.
Import heap.

Implicit Types (h : heap) (l : loc).

Ltac run := unfold mbind, M_bind, bindM, ret, store_floats, store; cbn beta iota.

(** [NewInitCond] copies both arguments into fresh memory: the state and
    covariance it keeps share nothing with the caller's. *)
Lemma NewInitCond_eq h (v m d cd n k : nat) (buf cs : list float) :
  h !! v = Some (VecDense n (Some d)) -> h !! d = Some (Floats buf) ->
  n <= length buf -> 0 < n ->
  h !! m = Some (SymDense k (Some cd)) -> h !! cd = Some (Floats cs) ->
  0 < k ->
  let h1 := h ++ [VecDense n (Some (S (length h))); Floats (take n buf)] in
  InitCond.NewInitCond (Some v) (Some m) h
  = (Ret (InitCond.mkInitCond (Some (length h)) (Some (S (length h1)))),
     h1 ++ [Floats (copy_upper k k k (repeat 0%float (k * k)) cs);
            SymDense k (Some (length h1))]).
Proof.
  intros Hv Hd Hlen Hn Hm Hcd Hk h1.
  unfold InitCond.NewInitCond, CloneFromVec, Symmetric, CopySym, alloc. run.
  rewrite (load_vec_eq _ _ _ _ (lookup_new_0 _ _ _)). run.
  rewrite (load_vec_eq _ _ _ _ (lookup_old _ _ _ _ Hv)). run.
  rewrite bool_decide_eq_false_2.
  2:{ intros [= E]. apply lookup_lt_Some in Hv. lia. }
  rewrite (load_floats_eq _ _ _ (lookup_old _ _ _ _ Hd)). run.
  unfold load_floats at 1. cbn [length].
  destruct (Nat.leb_spec n 0); [lia|]. run.
  rewrite length_app, <- !app_assoc. cbn [length app]. rewrite Nat.add_1_r.
  rewrite insert_new_0.
  rewrite (load_floats_eq _ _ _ (lookup_new_1 _ _ _ _)). run.
  rewrite insert_new_1, take_drop_zeros by assumption.
  fold h1.
  assert (Hp : preserved h h1) by apply preserved_app.
  rewrite (load_sym_eq _ _ _ _ (Hp _ _ Hm)). run.
  rewrite NewSymDense_eq by assumption. run.
  rewrite (load_sym_eq _ _ _ _ (lookup_old _ _ _ _ (Hp _ _ Hm))). run.
  rewrite (load_sym_eq _ _ _ _ (lookup_new_1 _ _ _ _)). run.
  rewrite Nat.min_id. destruct (Nat.eqb_spec k 0); [lia|].
  rewrite (load_floats_eq _ _ _ (lookup_old _ _ _ _ (Hp _ _ Hcd))). run.
  rewrite (load_floats_eq _ _ _ (lookup_new_0 _ _ _)). run.
  rewrite insert_new_0. reflexivity.
Qed.

Lemma length_copy_upper (n sN aN : nat) (dst src : list float) :
  length (copy_upper n sN aN dst src) = length dst.
Proof. unfold copy_upper. now rewrite length_map, length_seq. Qed.

(** Every [InitCond] made by the constructor from a non-empty vector and a
    non-empty symmetric matrix is one that [holds]. *)
Lemma NewInitCond_holds h (v m d cd n k : nat) (buf cs : list float) :
  h !! v = Some (VecDense n (Some d)) -> h !! d = Some (Floats buf) ->
  n <= length buf -> 0 < n ->
  h !! m = Some (SymDense k (Some cd)) -> h !! cd = Some (Floats cs) ->
  0 < k ->
  exists c h',
    InitCond.NewInitCond (Some v) (Some m) h = (Ret c, h') /\
    preserved h h' /\
    holds h' c n (take n buf) k (copy_upper k k k (repeat 0%float (k * k)) cs).
Proof.
  intros Hv Hd Hlen Hn Hm Hcd Hk.
  eexists _, _. split; [eapply NewInitCond_eq; eassumption|]. split.
  - rewrite <- app_assoc. apply preserved_app.
  - split.
    + exists (length h), (S (length h)), (take n buf).
      split; [reflexivity|]. split; [apply lookup_old, lookup_new_0|].
      split; [apply lookup_old, lookup_new_1|].
      rewrite length_take. split; [|lia].
      rewrite take_take. f_equal. lia.
    + eexists _, _. split; [reflexivity|].
      split; [apply lookup_new_1|]. split; [apply lookup_new_0|].
      rewrite length_copy_upper, repeat_length. split; [reflexivity|assumption].
Qed.

End Construction.

Section Copies.
Import heap.

Implicit Types (h : heap) (c : InitCond.InitCond).

Lemma holds_length h c n xs k cs : holds h c n xs k cs -> length xs = n.
Proof.
  intros [(sl & sd & buf & _ & _ & _ & -> & Hlen & _) _].
  rewrite length_take. lia.
Qed.

Lemma holds_state_entries h c n xs k cs sl :
  holds h c n xs k cs -> InitCond.state c = Some sl -> vec_entries h sl = Some xs.
Proof.
  intros [(sl' & sd & buf & Hst & Hsl & Hsd & -> & _) _] E.
  rewrite Hst in E. injection E as <-.
  unfold vec_entries. now rewrite Hsl, Hsd.
Qed.

Lemma holds_cov_entry h c n xs k cs cl (i j : nat) :
  holds h c n xs k cs -> InitCond.cov c = Some cl ->
  sym_entry h cl i j = cs !! (Nat.min i j * k + Nat.max i j).
Proof.
  intros [_ (cl' & cd & Hcv & Hcl & Hcd & _)] E.
  rewrite Hcv in E. injection E as <-.
  unfold sym_entry. now rewrite Hcl, Hcd.
Qed.

(** C9. On every [InitCond] in the store, [State] (of both packages) and
    [Cov] succeed and return a deep copy: the result reads the same as the
    internal state, it occupies only memory allocated by the call, the call
    changes no object of the store, and whatever is done afterwards to the
    memory of the result leaves every object that existed before the call
    unchanged, the [InitCond] included, so that earlier results and later
    calls are unaffected. *)
Theorem accessors_return_fresh_copies h c n xs k cs :
  holds h c n xs k cs ->
  exists s hs m hm,
    model.State c h = (Ret s, hs) /\
    sim.State c h = (Ret s, hs) /\
    InitCond.Cov c h = (Ret m, hm) /\
    (forall sl, InitCond.state c = Some sl ->
       vec_entries hs s = vec_entries h sl /\ vec_entries hs s = Some xs) /\
    (forall cl i j, InitCond.cov c = Some cl -> i < k -> j < k ->
       sym_entry hm m i j = sym_entry h cl i j) /\
    preserved h hs /\ preserved h hm /\
    fresh_since h hs s /\ fresh_since h hm m /\
    (forall h', mutates_only (footprint hs s) hs h' ->
       preserved h h' /\ holds h' c n xs k cs) /\
    (forall h', mutates_only (footprint hm m) hm h' ->
       preserved h h' /\ holds h' c n xs k cs).
Proof.
  intros H.
  pose proof (holds_length _ _ _ _ _ _ H) as Hlen.
  assert (Hk : length cs = k * k) by (destruct H as [_ (? & ? & ? & ? & ? & ? & ?)]; assumption).
  eexists _, _, _, _.
  split; [now apply (State_model_eq h c n xs k cs)|].
  split; [now apply (State_sim_eq h c n xs k cs)|].
  split; [now apply (Cov_eq h c n xs k cs)|].
  split; [|split].
  - intros sl Hsl. rewrite (holds_state_entries _ _ _ _ _ _ _ H Hsl).
    split; now apply vec_entries_new.
  - intros cl i j Hcl Hi Hj. rewrite (holds_cov_entry _ _ _ _ _ _ _ _ _ H Hcl).
    now apply sym_entry_new.
  - split; [apply preserved_app|]. split; [apply preserved_app|].
    split; [apply fresh_vec|]. split; [apply fresh_sym|].
    split; intros h' Hm.
    + assert (Hp : preserved h h').
      { eapply fresh_mutation_preserves; [apply preserved_app|apply fresh_vec|exact Hm]. }
      split; [exact Hp|]. now apply (holds_preserved h h').
    + assert (Hp : preserved h h').
      { eapply fresh_mutation_preserves; [apply preserved_app|apply fresh_sym|exact Hm]. }
      split; [exact Hp|]. now apply (holds_preserved h h').
Qed.

(** A later call, after a returned vector was overwritten, still returns the
    original entries. *)
Lemma later_call_unaffected h c n xs k cs (s : loc) hs h' :
  holds h c n xs k cs ->
  sim.State c h = (Ret s, hs) ->
  mutates_only (footprint hs s) hs h' ->
  exists s' hs',
    sim.State c h' = (Ret s', hs') /\ vec_entries hs' s' = Some xs.
Proof.
  intros H Hs Hm.
  rewrite (State_sim_eq h c n xs k cs H) in Hs. injection Hs as <- <-.
  assert (H' : holds h' c n xs k cs).
  { apply (holds_preserved h h'); [|exact H].
    eapply fresh_mutation_preserves; [apply preserved_app|apply fresh_vec|exact Hm]. }
  eexists _, _. split; [now apply (State_sim_eq h' c n xs k cs)|].
  apply vec_entries_new. now apply holds_length in H.
Qed.

Lemma store0_holds :
  holds store0 ic0 2 [1%float; 2%float] 2 [4%float; 1%float; 0%float; 9%float].
Proof.
  split.
  - exists 1, 0, [1%float; 2%float]. cbn. repeat split; (reflexivity || lia).
  - exists 3, 2. cbn. repeat split; (reflexivity || lia).
Qed.

Lemma accessors_return_fresh_copies_witness :
  exists s hs m hm,
    model.State ic0 store0 = (Ret s, hs) /\
    sim.State ic0 store0 = (Ret s, hs) /\
    InitCond.Cov ic0 store0 = (Ret m, hm) /\
    (forall sl, InitCond.state ic0 = Some sl ->
       vec_entries hs s = vec_entries store0 sl /\
       vec_entries hs s = Some [1%float; 2%float]) /\
    (forall cl i j, InitCond.cov ic0 = Some cl -> i < 2 -> j < 2 ->
       sym_entry hm m i j = sym_entry store0 cl i j) /\
    preserved store0 hs /\ preserved store0 hm /\
    fresh_since store0 hs s /\ fresh_since store0 hm m /\
    (forall h', mutates_only (footprint hs s) hs h' ->
       preserved store0 h' /\
       holds h' ic0 2 [1%float; 2%float] 2 [4%float; 1%float; 0%float; 9%float]) /\
    (forall h', mutates_only (footprint hm m) hm h' ->
       preserved store0 h' /\
       holds h' ic0 2 [1%float; 2%float] 2 [4%float; 1%float; 0%float; 9%float]).
Proof.
  apply (accessors_return_fresh_copies store0 ic0 2 [1%float; 2%float] 2
           [4%float; 1%float; 0%float; 9%float]).
  split.
  - exists 1, 0, [1%float; 2%float]. cbn. repeat split; (reflexivity || lia).
  - exists 3, 2. cbn. repeat split; (reflexivity || lia).
Defined.

(** The copy-independence scenario: [State] is called twice and the second
    result is overwritten at index [i]; the first result and the [InitCond]
    still hold the original entries. *)
Lemma state_twice_mutate_second h c n xs k cs (i : nat) (x : float) :
  holds h c n xs k cs -> i < n ->
  exists s1 h1 s2 h2 h3,
    sim.State c h = (Ret s1, h1) /\
    sim.State c h1 = (Ret s2, h2) /\
    SetVec (Some s2) i x h2 = (Ret tt, h3) /\
    vec_entries h3 s2 = Some (<[i := x]> xs) /\
    vec_entries h3 s1 = Some xs /\
    holds h3 c n xs k cs.
Proof.
  intros H Hi.
  pose proof (holds_length _ _ _ _ _ _ H) as Hlen.
  set (h1 := h ++ [Floats xs; VecDense n (Some (length h))]).
  assert (H1 : holds h1 c n xs k cs) by (eapply holds_preserved; [apply preserved_app|exact H]).
  exists (S (length h)), h1, (S (length h1)),
         (h1 ++ [Floats xs; VecDense n (Some (length h1))]),
         (h1 ++ [Floats (<[i := x]> xs); VecDense n (Some (length h1))]).
  split; [now apply (State_sim_eq h c n xs k cs)|].
  split; [now apply (State_sim_eq h1 c n xs k cs)|].
  split; [|split; [|split]].
  - unfold SetVec, mbind, M_bind, bindM, store_floats, store.
    rewrite (load_vec_eq _ _ _ _ (lookup_new_1 _ _ _ _)).
    destruct (Nat.leb_spec n i); [lia|].
    rewrite (load_floats_eq _ _ _ (lookup_new_0 _ _ _)).
    now rewrite insert_new_0.
  - apply vec_entries_new. now rewrite length_insert.
  - apply (vec_entries_preserved h1); [apply preserved_app|].
    now apply vec_entries_new.
  - eapply holds_preserved; [apply preserved_app|exact H1].
Qed.

End Copies.

(* ================================================================= *)
(** * Further properties of the models *)














(** A disturbance of the wrong length is not rejected: [Propagate] ignores
    a [q] whose length differs from the column count of [A], and [Observe]
    an [r] whose length differs from the row count of [C]. *)
Theorem wrong_length_disturbance_ignored {K : mat.Kernel} (a c : mat.Dense) (B D : mat.DensePtr)
    (x u : mat.Vector) (q : list float) :
  let b := sim.mkBaseModel (Some a) B (Some c) D in
  (length q <> mat.Cols a ->
   sim.Propagate b x u (Some q) = sim.Propagate b x u None) /\
  (length q <> mat.Rows c ->
   sim.Observe b x u (Some q) = sim.Observe b x u None).
Proof.
  intros b. subst b. split; intros Hq.
  - unfold sim.Propagate, sim.Dims. cbn [mat.Dims mbind result_bind bind sim.A sim.C].
    destruct (Nat.eqb_spec (length q) (mat.Cols a)); [contradiction|]. reflexivity.
  - unfold sim.Observe, sim.Dims. cbn [mat.Dims mbind result_bind bind sim.A sim.C].
    destruct (Nat.eqb_spec (length q) (mat.Rows c)); [contradiction|]. reflexivity.
Qed.

Lemma not_err_neq {T} (r : result T) (e : error) : is_err r = false -> r <> Err e.
Proof. intros H ->. discriminate H. Qed.

(** The outcome of the two length checks, for any continuation that
    returns no error. *)
Lemma checks_rejected (a c : mat.Dense) (x u : mat.Vector) (e : error)
    (rest : result (list float)) :
  is_err rest = false ->
  (if match u with Some uv => negb (length uv =? mat.Rows c) | None => false end
   then Err (Errorf "Invalid input vector" [])
   else xlen ← mat.Len x;
        if negb (xlen =? mat.Cols a) then Err (Errorf "Invalid state vector" [])
        else rest) = Err e
  <-> rejected a c x u e.
Proof.
  intros Hrest. unfold rejected.
  assert (Hu : forall uv, u = Some uv -> (length uv =? mat.Rows c) = true ->
               forall uv', u = Some uv' -> length uv' = mat.Rows c).
  { intros uv -> E uv' [= <-]. now apply Nat.eqb_eq. }
  destruct u as [uv|].
  - destruct (Nat.eqb_spec (length uv) (mat.Rows c)) as [Eu|Eu]; cbn [negb].
    + destruct x as [xs|]; cbn [mat.Len mbind result_bind bind].
      * destruct (Nat.eqb_spec (length xs) (mat.Cols a)) as [Ex|Ex]; cbn [negb].
        -- split; [intros H; now apply not_err_neq in H|].
           intros [(_ & uv' & [= <-] & H)|(_ & _ & xs' & [= <-] & H)]; contradiction.
        -- split.
           ++ intros [= <-]. right. split; [reflexivity|]. split.
              ** now intros uv' [= <-].
              ** now exists xs.
           ++ intros [(_ & uv' & [= <-] & H)|(-> & _)]; [contradiction|reflexivity].
      * split; [discriminate|].
        intros [(_ & uv' & [= <-] & H)|(_ & _ & xs' & [=] & _)]. contradiction.
    + split.
      * intros [= <-]. left. split; [reflexivity|]. now exists uv.
      * intros [(-> & _)|(_ & H & _)]; [reflexivity|]. now specialize (H uv eq_refl).
  - destruct x as [xs|]; cbn [mat.Len mbind result_bind bind].
    + destruct (Nat.eqb_spec (length xs) (mat.Cols a)) as [Ex|Ex]; cbn [negb].
      * split; [intros H; now apply not_err_neq in H|].
        intros [(_ & uv' & [=] & _)|(_ & _ & xs' & [= <-] & H)]. contradiction.
      * split.
        -- intros [= <-]. right. split; [reflexivity|]. split; [intros ? [=]|].
           now exists xs.
        -- intros [(_ & uv' & [=] & _)|(-> & _)]. reflexivity.
    + split; [discriminate|].
      intros [(_ & uv' & [=] & _)|(_ & _ & xs' & [=] & _)].
Qed.

(** [BaseModel.Propagate] and [BaseModel.Observe] return an error on exactly
    the same inputs, and the same error: "Invalid input vector" when [u] is
    present with a length other than the row count of [C], otherwise
    "Invalid state vector" when [x] has a length other than the column count
    of [A]. The disturbance plays no part. *)
Theorem propagate_observe_reject_alike {K : mat.Kernel} (a c : mat.Dense) (B D : mat.DensePtr)
    (x u q r : mat.Vector) (e : error) :
  let b := sim.mkBaseModel (Some a) B (Some c) D in
  (sim.Propagate b x u q = Err e <-> rejected a c x u e) /\
  (sim.Observe b x u r = Err e <-> rejected a c x u e).
Proof.
  intros b. subst b. split.
  - unfold sim.Propagate, sim.Dims.
    cbn [mat.Dims mbind result_bind bind sim.A sim.B sim.C].
    apply checks_rejected.
    apply (affine_tail_not_err (Some a) B (option_map mat.of_vec x) u q (mat.Cols a)).
  - unfold sim.Observe, sim.Dims.
    cbn [mat.Dims mbind result_bind bind sim.A sim.C sim.D].
    apply checks_rejected.
    apply (affine_tail_not_err (Some c) D (option_map mat.of_vec x) u r (mat.Rows c)).
Qed.



(** A model without [B] (or [D]) ignores the control vector in [Propagate]
    (in [Observe]), but its length is still checked against the row count of
    [C]: a [u] of another length is an error although nothing uses it. *)
Theorem control_checked_but_unused {K : mat.Kernel} (a c : mat.Dense) (B D : mat.DensePtr)
    (x v : mat.Vector) (u : list float) :
  let noB := sim.mkBaseModel (Some a) None (Some c) D in
  let noD := sim.mkBaseModel (Some a) B (Some c) None in
  (length u = mat.Rows c ->
   sim.Propagate noB x (Some u) v = sim.Propagate noB x None v /\
   sim.Observe noD x (Some u) v = sim.Observe noD x None v) /\
  (length u <> mat.Rows c ->
   sim.Propagate noB x (Some u) v = Err (Errorf "Invalid input vector" []) /\
   sim.Observe noD x (Some u) v = Err (Errorf "Invalid input vector" [])).
Proof.
  intros noB noD. subst noB noD.
  unfold sim.Propagate, sim.Observe, sim.Dims.
  cbn [mat.Dims mbind result_bind bind sim.A sim.B sim.C sim.D].
  split; intros Hu.
  - rewrite Hu, Nat.eqb_refl. split; reflexivity.
  - destruct (Nat.eqb_spec (length u) (mat.Rows c)); [contradiction|].
    split; reflexivity.
Qed.

(** What construction lets through panics later: a [BaseModel] with [A] or
    [C] nil panics in [Dims], [Propagate] and [Observe] for all arguments;
    and with both present, a nil [x] panics unless [u] is rejected first. *)
Theorem missing_matrix_or_state_panics {K : mat.Kernel} (b : sim.BaseModel) (x u v : mat.Vector) :
  (sim.A b = None \/ sim.C b = None ->
   sim.Dims b = Panic NilDereference /\
   sim.Propagate b x u v = Panic NilDereference /\
   sim.Observe b x u v = Panic NilDereference) /\
  (forall a c, sim.A b = Some a -> sim.C b = Some c ->
   (forall uv, u = Some uv -> length uv = mat.Rows c) ->
   sim.Propagate b None u v = Panic NilDereference /\
   sim.Observe b None u v = Panic NilDereference).
Proof.
  destruct b as [A B C D]. cbn [sim.A sim.C]. split.
  - intros H. unfold sim.Propagate, sim.Observe, sim.Dims.
    destruct A as [a|], C as [c|]; cbn; destruct H as [H|H];
      try discriminate H; repeat split; reflexivity.
  - intros a c -> -> Hu. unfold sim.Propagate, sim.Observe, sim.Dims.
    cbn [mat.Dims mbind result_bind bind sim.A sim.B sim.C sim.D mat.Len].
    destruct u as [uv|]; [|split; reflexivity].
    rewrite (Hu uv eq_refl), Nat.eqb_refl. split; reflexivity.
Qed.

(** ** The two model variants *)

(** Where [Fall] works at all it is [BaseModel]: with [u], [B] and [D]
    present and [D] having as many rows as [C], [Propagate] and [Observe] of
    the two variants give the same outcome on all arguments. *)
Theorem fall_agrees_with_base {K : mat.Kernel} (A : mat.DensePtr) (bm c d : mat.Dense)
    (x v : mat.Vector) (u : list float) :
  mat.Rows d = mat.Rows c ->
  model.Propagate (model.mkFall A (Some bm) (Some c) (Some d)) x (Some u) v
    = sim.Propagate (sim.mkBaseModel A (Some bm) (Some c) (Some d)) x (Some u) v /\
  model.Observe (model.mkFall A (Some bm) (Some c) (Some d)) x (Some u) v
    = sim.Observe (sim.mkBaseModel A (Some bm) (Some c) (Some d)) x (Some u) v.
Proof.
  intros Hd.
  unfold model.Propagate, model.Observe, model.Dims,
    sim.Propagate, sim.Observe, sim.Dims.
  cbn [model.A model.B model.C model.D sim.A sim.B sim.C sim.D].
  unfold mbind, result_bind.
  destruct A as [a|]; [|split; reflexivity].
  cbn [mat.Dims mat.Len bind option_map]. rewrite Hd.
  destruct (negb (length u =? mat.Rows c)); [split; reflexivity|].
  destruct x as [xs|]; [|split; reflexivity]. cbn [mat.Len bind option_map].
  destruct (negb (length xs =? mat.Cols a)); [split; reflexivity|].
  split.
  - destruct (mat.Mul _ (Some a) _) as [o1| |]; cbn [bind]; try reflexivity.
    destruct (mat.Mul _ (Some bm) _) as [o2| |]; cbn [bind]; reflexivity.
  - destruct (mat.Mul _ (Some c) _) as [o1| |]; cbn [bind]; try reflexivity.
    destruct (mat.Mul _ (Some d) _) as [o2| |]; cbn [bind]; reflexivity.
Qed.

Lemma fall_agrees_with_base_witness :
  model.Propagate (K := mat.sequential)
      (model.mkFall (Some m11) (Some b12) (Some m11) (Some d12))
      (Some [0%float]) (Some [1%float]) None
    = sim.Propagate (K := mat.sequential)
        (sim.mkBaseModel (Some m11) (Some b12) (Some m11) (Some d12))
        (Some [0%float]) (Some [1%float]) None /\
  model.Observe (K := mat.sequential)
      (model.mkFall (Some m11) (Some b12) (Some m11) (Some d12))
      (Some [0%float]) (Some [1%float]) None
    = sim.Observe (K := mat.sequential)
        (sim.mkBaseModel (Some m11) (Some b12) (Some m11) (Some d12))
        (Some [0%float]) (Some [1%float]) None.
Proof.
  apply (fall_agrees_with_base (K := mat.sequential) (Some m11) b12 m11 d12
           (Some [0%float]) None [1%float]).
  reflexivity.
Defined.

(** [Fall] needs both control matrices: without [D] every call of [Dims],
    [Propagate] and [Observe] panics, and without [B] no call of [Propagate]
    returns a vector. [NewFall] accepts both. *)
Theorem fall_needs_control_matrices {K : mat.Kernel} (b : model.Fall) (x u v : mat.Vector) :
  (model.D b = None ->
   model.Dims b = Panic NilDereference /\
   model.Propagate b x u v = Panic NilDereference /\
   model.Observe b x u v = Panic NilDereference) /\
  (model.B b = None -> is_ret (model.Propagate b x u v) = false) /\
  model.NewFall (model.A b) None (model.C b) None
    = Ret (model.mkFall (model.A b) None (model.C b) None).
Proof.
  destruct b as [A B C D]. cbn [model.A model.B model.C model.D].
  split; [|split; [|reflexivity]].
  - intros ->. unfold model.Propagate, model.Observe, model.Dims.
    destruct A as [a|]; repeat split; reflexivity.
  - intros ->. unfold model.Propagate, model.Dims. cbn [model.A model.B model.D].
    unfold mbind, result_bind.
    destruct A as [a|]; [|reflexivity]. destruct D as [d|]; [|reflexivity].
    cbn [mat.Dims bind].
    destruct u as [uv|]; [|reflexivity]. cbn [mat.Len bind].
    destruct (negb _); [reflexivity|].
    destruct x as [xs|]; [|reflexivity]. cbn [mat.Len bind option_map].
    destruct (negb _); [reflexivity|].
    destruct (mat.Mul _ (Some a) _) as [o1| |]; reflexivity.
Qed.

(** ** The matrix accessors *)

(** Whenever [Dims] returns [(n, p)], [StateMatrix] and [OutputMatrix]
    return too, with the dimensions and entries of [A] and [C], of which
    [n] is the column and [p] the row count; the two control accessors
    always return, with the empty matrix for an absent [B] or [D]. *)
Theorem accessors_follow_dims (b : sim.BaseModel) (n p : nat) :
  sim.Dims b = Ret (n, p) ->
  exists a c,
    sim.A b = Some a /\ sim.C b = Some c /\
    mat.Cols a = n /\ mat.Rows c = p /\
    sim.StateMatrix b = Ret (mat.mkDense (mat.Rows a) (mat.Cols a) (mat.At a)) /\
    sim.OutputMatrix b = Ret (mat.mkDense (mat.Rows c) (mat.Cols c) (mat.At c)) /\
    sim.StateCtlMatrix b
      = Ret (match sim.B b with
             | Some m => mat.mkDense (mat.Rows m) (mat.Cols m) (mat.At m)
             | None => mat.empty
             end) /\
    sim.OutputCtlMatrix b
      = Ret (match sim.D b with
             | Some m => mat.mkDense (mat.Rows m) (mat.Cols m) (mat.At m)
             | None => mat.empty
             end).
Proof.
  destruct b as [[a|] B [c|] D]; cbn; try discriminate.
  intros [= <- <-]. exists a, c.
  repeat split; try reflexivity.
  - now destruct B.
  - now destruct D.
Qed.

Lemma accessors_follow_dims_witness :
  exists a c,
    sim.A autonomous = Some a /\ sim.C autonomous = Some c /\
    mat.Cols a = 2 /\ mat.Rows c = 1 /\
    sim.StateMatrix autonomous
      = Ret (mat.mkDense (mat.Rows a) (mat.Cols a) (mat.At a)) /\
    sim.OutputMatrix autonomous
      = Ret (mat.mkDense (mat.Rows c) (mat.Cols c) (mat.At c)) /\
    sim.StateCtlMatrix autonomous
      = Ret (match sim.B autonomous with
             | Some m => mat.mkDense (mat.Rows m) (mat.Cols m) (mat.At m)
             | None => mat.empty
             end) /\
    sim.OutputCtlMatrix autonomous
      = Ret (match sim.D autonomous with
             | Some m => mat.mkDense (mat.Rows m) (mat.Cols m) (mat.At m)
             | None => mat.empty
             end).
Proof. apply (accessors_follow_dims autonomous 2 1). reflexivity. Defined.

(* ================================================================= *)
(** * Further properties of the samplers *)

(** ** [sort.Search] *)

Lemma search_loop_boundary (f : nat -> bool) (n fuel i j : nat) :
  j - i <= fuel -> i <= j -> j <= n ->
  (0 < i -> f (i - 1) = false) -> (j < n -> f j = true) ->
  i <= rnd.search_loop fuel f i j <= j /\
  (0 < rnd.search_loop fuel f i j -> f (rnd.search_loop fuel f i j - 1) = false) /\
  (rnd.search_loop fuel f i j < n -> f (rnd.search_loop fuel f i j) = true).
Proof.
  revert i j. induction fuel as [|fuel IH]; intros i j Hfuel Hij Hjn Hi Hj;
    cbn [rnd.search_loop].
  - assert (i = j) as -> by lia. repeat split; (lia || assumption).
  - destruct (Nat.ltb_spec i j) as [Hlt|Hge].
    + destruct (midpoint i j Hlt) as [Hl Hu].
      destruct (f ((i + j) / 2)) eqn:Ef; cbn [negb].
      * specialize (IH i ((i + j) / 2)).
        destruct IH as (Hb & H1 & H2); try (lia || assumption).
        -- intros _. exact Ef.
        -- repeat split; (lia || assumption).
      * specialize (IH ((i + j) / 2 + 1) j).
        destruct IH as (Hb & H1 & H2); try (lia || assumption).
        -- intros _. now replace ((i + j) / 2 + 1 - 1) with ((i + j) / 2) by lia.
        -- repeat split; (lia || assumption).
    + assert (i = j) as -> by lia. repeat split; (lia || assumption).
Qed.

Lemma Search_at_boundary (f : nat -> bool) (n : nat) :
  rnd.Search n f <= n /\
  (0 < rnd.Search n f -> f (rnd.Search n f - 1) = false) /\
  (rnd.Search n f < n -> f (rnd.Search n f) = true).
Proof.
  unfold rnd.Search.
  destruct (search_loop_boundary f n n 0 n) as (Hb & H1 & H2); try lia.
  split; [lia|]. split; assumption.
Qed.

(** [Search n f] returns an index in [0..n] at a boundary of [f]: [f] is
    false just below it and true at it (when these indices exist). For a
    predicate that stays true once true, it is the least index where [f]
    holds, and [n] if there is none. No monotonicity is needed for the
    first part. *)
Theorem Search_boundary (f : nat -> bool) (n : nat) :
  rnd.Search n f <= n /\
  (0 < rnd.Search n f -> f (rnd.Search n f - 1) = false) /\
  (rnd.Search n f < n -> f (rnd.Search n f) = true) /\
  ((forall a b, a <= b -> b < n -> f a = true -> f b = true) ->
   forall k, k < rnd.Search n f -> f k = false).
Proof.
  destruct (Search_at_boundary f n) as (Hb & H1 & H2).
  split; [exact Hb|]. split; [exact H1|]. split; [exact H2|].
  intros Hmono k Hk. destruct (f k) eqn:Ek; [|reflexivity].
  rewrite <- (H1 ltac:(lia)). symmetry.
  apply (Hmono k); [lia|lia|exact Ek].
Qed.

(** ** [RouletteDrawN] *)

Lemma fill_length (k : nat) (src : rnd.source) : length (fst (rnd.fill k src)) = k.
Proof.
  revert src. induction k as [|k IH]; intros src; cbn; [reflexivity|].
  specialize (IH (fun i => src (S i))). destruct (rnd.fill k _). cbn in *.
  now rewrite IH.
Qed.

Lemma fill_source (k : nat) (src : rnd.source) (i : nat) :
  snd (rnd.fill k src) i = advance k src i.
Proof.
  revert src. induction k as [|k IH]; intros src; cbn; [reflexivity|].
  specialize (IH (fun i => src (S i))). destruct (rnd.fill k _). cbn in *.
  rewrite IH. unfold advance. f_equal.
Qed.

Lemma fill_nth (k : nat) (src : rnd.source) (i : nat) :
  i < k -> nth i (fst (rnd.fill k src)) 0%float = src i.
Proof.
  revert src i. induction k as [|k IH]; intros src i Hi; [lia|].
  cbn [rnd.fill rnd.next]. specialize (IH (fun j => src (S j))).
  destruct (rnd.fill k _) as [l s2]. cbn [fst] in *.
  destruct i as [|i]; [reflexivity|]. cbn [nth]. apply IH. lia.
Qed.

Lemma draw_loop_source (cdf : list float) (k : nat) (src : rnd.source) (i : nat) :
  snd (rnd.draw_loop cdf k src) i = advance k src i.
Proof.
  revert src. induction k as [|k IH]; intros src; cbn; [reflexivity|].
  specialize (IH (fun i => src (S i))). destruct (rnd.draw_loop cdf k _). cbn in *.
  rewrite IH. unfold advance. f_equal.
Qed.

(** Draw [k] decides index [k]. *)
Lemma draw_loop_lookup (cdf : list float) (n : nat) (src : rnd.source) (k : nat) :
  k < n ->
  fst (rnd.draw_loop cdf n src) !! k
  = Some (rnd.Search (length cdf)
            (fun i => (src k * nth (length cdf - 1) cdf 0 <? nth i cdf 0)%float)).
Proof.
  revert src k. induction n as [|n IH]; intros src k Hk; [lia|].
  cbn [rnd.draw_loop rnd.next].
  specialize (IH (fun i => src (S i))).
  destruct (rnd.draw_loop cdf n _) as [rest src2]. cbn [fst] in *.
  destruct k as [|k]; [reflexivity|]. cbn. apply IH. lia.
Qed.

(** What one draw decides, for whatever cumulative weights [cdf] the loop
    runs on: with [val] the draw times the last cumulative weight, the index
    is at most [len(cdf)] (inclusive), the cumulative weight at it exceeds
    [val] when it is below [len(cdf)], and the one before it does not. *)
Lemma draw_loop_boundary (cdf : list float) (n : nat) (src : rnd.source)
    (k idx : nat) :
  fst (rnd.draw_loop cdf n src) !! k = Some idx ->
  let val := (src k * nth (length cdf - 1) cdf 0)%float in
  idx <= length cdf /\
  (idx < length cdf -> (val <? nth idx cdf 0)%float = true) /\
  (0 < idx -> (val <? nth (idx - 1) cdf 0)%float = false).
Proof.
  intros Hk val.
  assert (Hlt : k < n).
  { apply lookup_lt_Some in Hk. now rewrite length_draw_loop in Hk. }
  rewrite (draw_loop_lookup _ _ _ _ Hlt) in Hk. injection Hk as <-.
  pose proof (Search_at_boundary
                (fun i => (src k * nth (length cdf - 1) cdf 0 <? nth i cdf 0)%float)
                (length cdf)) as (Hb & H1 & H2).
  split; [exact Hb|]. split; [exact H2|exact H1].
Qed.

(** For non-empty weights and a count [n >= 0] that [make] can allocate,
    [RouletteDrawN] returns [n] indices, each at most [len(p)] (inclusive:
    one past the end is possible), and takes exactly [n] draws from the
    generator. The loop itself, on whatever cumulative weights [cdf] it is
    given, decides index [k] by draw [k] alone: with [val] that draw times
    the last cumulative weight, the cumulative weight at the index exceeds
    [val] when the index is below [len(cdf)], and the one before it does
    not; so the index is below [len(cdf)] whenever [val] is below the last
    cumulative weight. *)
Theorem draw_indices_bounded (w : list float) (n : Z) (src : rnd.source) :
  w <> [] -> (0 <= n)%Z -> (n * 8 <= maxAlloc)%Z ->
  (exists indices src',
     rnd.RouletteDrawN (Some w) n src = (Ret indices, src') /\
     length indices = Z.to_nat n /\
     Forall (fun idx => idx <= length w) indices /\
     forall i, src' i = advance (Z.to_nat n) src i) /\
  forall cdf k idx,
    fst (rnd.draw_loop cdf (Z.to_nat n) src) !! k = Some idx ->
    let val := (src k * nth (length cdf - 1) cdf 0)%float in
    idx <= length cdf /\
    (idx < length cdf -> (val <? nth idx cdf 0)%float = true) /\
    (0 < idx -> (val <? nth (idx - 1) cdf 0)%float = false) /\
    (cdf <> [] -> (val <? nth (length cdf - 1) cdf 0)%float = true ->
     idx < length cdf).
Proof.
  intros Hw Hn Hmax. split.
  - eexists _, _. split; [now apply RouletteDrawN_run|].
    split; [apply length_draw_loop|]. split.
    + apply Forall_lookup_2. intros k idx Hk.
      apply draw_loop_boundary in Hk as (Hb & _).
      now rewrite length_CumSum in Hb.
    + intros i. apply draw_loop_source.
  - intros cdf k idx Hk val.
    destruct (draw_loop_boundary _ _ _ _ _ Hk) as (Hb & H2 & H1).
    fold val in H1, H2.
    split; [exact Hb|]. split; [exact H2|]. split; [exact H1|].
    intros Hne Hlast.
    destruct (Nat.eq_dec idx (length cdf)) as [Eq|Ne]; [|lia].
    assert (Hpos : 0 < idx) by (rewrite Eq; destruct cdf; [contradiction|cbn; lia]).
    specialize (H1 Hpos). rewrite Eq in H1. congruence.
Qed.

Lemma draw_indices_bounded_witness :
  (exists indices src',
     rnd.RouletteDrawN (Some [1%float; 2%float]) 2 halves = (Ret indices, src') /\
     length indices = Z.to_nat 2 /\
     Forall (fun idx => idx <= length [1%float; 2%float]) indices /\
     forall i, src' i = advance (Z.to_nat 2) halves i) /\
  forall cdf k idx,
    fst (rnd.draw_loop cdf (Z.to_nat 2) halves) !! k = Some idx ->
    let val := (halves k * nth (length cdf - 1) cdf 0)%float in
    idx <= length cdf /\
    (idx < length cdf -> (val <? nth idx cdf 0)%float = true) /\
    (0 < idx -> (val <? nth (idx - 1) cdf 0)%float = false) /\
    (cdf <> [] -> (val <? nth (length cdf - 1) cdf 0)%float = true ->
     idx < length cdf).
Proof.
  apply (draw_indices_bounded [1%float; 2%float] 2 halves);
    [discriminate|lia|rewrite maxAlloc_eq; lia].
Defined.

Lemma draw_loop_app (cdf : list float) (n m : nat) (src : rnd.source) :
  rnd.draw_loop cdf (n + m) src
  = (fst (rnd.draw_loop cdf n src)
       ++ fst (rnd.draw_loop cdf m (snd (rnd.draw_loop cdf n src))),
     snd (rnd.draw_loop cdf m (snd (rnd.draw_loop cdf n src)))).
Proof.
  revert src. induction n as [|n IH]; intros src.
  - cbn. now destruct (rnd.draw_loop cdf m src).
  - cbn [Nat.add rnd.draw_loop rnd.next]. rewrite IH.
    destruct (rnd.draw_loop cdf n _) as [l1 s1]. reflexivity.
Qed.

(** Draws do not influence one another: for counts that [make] can
    allocate, drawing [n + m] indices is drawing [n] and then [m] with the
    generator the first call left, the results one after the other. *)
Theorem draws_compose (w : list float) (n m : Z) (src : rnd.source) :
  w <> [] -> (0 <= n)%Z -> (0 <= m)%Z -> ((n + m) * 8 <= maxAlloc)%Z ->
  exists first rest src1 src2,
    rnd.RouletteDrawN (Some w) n src = (Ret first, src1) /\
    rnd.RouletteDrawN (Some w) m src1 = (Ret rest, src2) /\
    rnd.RouletteDrawN (Some w) (n + m) src = (Ret (first ++ rest), src2).
Proof.
  intros Hw Hn Hm Hmax.
  eexists _, _, _, _.
  split; [apply RouletteDrawN_run; (assumption || lia)|].
  split; [apply RouletteDrawN_run; (assumption || lia)|].
  rewrite RouletteDrawN_run by (assumption || lia).
  rewrite Z2Nat.inj_add by lia. now rewrite draw_loop_app.
Qed.

Lemma draws_compose_witness :
  exists first rest src1 src2,
    rnd.RouletteDrawN (Some [1%float; 2%float]) 1 halves = (Ret first, src1) /\
    rnd.RouletteDrawN (Some [1%float; 2%float]) 2 src1 = (Ret rest, src2) /\
    rnd.RouletteDrawN (Some [1%float; 2%float]) (1 + 2) halves
      = (Ret (first ++ rest), src2).
Proof.
  apply (draws_compose [1%float; 2%float] 1 2 halves);
    [discriminate|lia|lia|rewrite maxAlloc_eq; lia].
Defined.

(** Weights that are all zero ([+0] or [-0]) are not rejected: for every
    non-empty such vector, every count [k >= 0] that [make] can allocate
    and every state of the generator, [RouletteDrawN] returns [k] times the
    index [len(p)], which is one past the end of [p]. *)
Theorem zero_weights_past_the_end (w : list float) (k : Z) (src : rnd.source) :
  w <> [] -> Forall zero_weight w -> (0 <= k)%Z -> (k * 8 <= maxAlloc)%Z ->
  fst (rnd.RouletteDrawN (Some w) k src) = Ret (repeat (length w) (Z.to_nat k)).
Proof.
  intros Hw Hz Hk Hmax. rewrite RouletteDrawN_nonempty by assumption.
  rewrite draw_loop_zero.
  - now rewrite length_CumSum.
  - now apply CumSum_zero.
  - rewrite length_CumSum. destruct w; [contradiction|cbn; lia].
Qed.

Lemma zero_weights_past_the_end_witness :
  fst (rnd.RouletteDrawN (Some [0%float; (-0)%float; 0%float]) 2 halves)
  = Ret (repeat (length [0%float; (-0)%float; 0%float]) (Z.to_nat 2)).
Proof.
  apply (zero_weights_past_the_end [0%float; (-0)%float; 0%float] 2 halves).
  - discriminate.
  - repeat constructor.
  - lia.
  - rewrite maxAlloc_eq. lia.
Defined.

(** ** [WithCovN] *)

Lemma wrap64_small (z : Z) : (0 <= z < 2 ^ 63)%Z -> wrap64 z = z.
Proof. intros H. unfold wrap64. rewrite Z.mod_small; lia. Qed.

(** A sampler that returns an error has drawn nothing: the generator is as
    it was. For [WithCovN] this holds for every behaviour of the SVD, and the
    sample count is checked before the covariance is looked at, so a nil
    covariance with a count of at most 1 is an error, not a panic. *)
Theorem errors_leave_generator {K : mat.Kernel}
    (Factorize : mat.Dense -> option (mat.Dense * list float))
    (cov : mat.DensePtr) (p : option (list float)) (n : Z) (src : rnd.source) :
  (is_err (fst (rnd.WithCovN Factorize cov n src)) = true ->
   snd (rnd.WithCovN Factorize cov n src) = src) /\
  (is_err (fst (rnd.RouletteDrawN p n src)) = true ->
   snd (rnd.RouletteDrawN p n src) = src) /\
  ((n <= 1)%Z ->
   rnd.WithCovN Factorize None n src = (Err (rnd.InvalidSamples n), src)) /\
  ((2 <= n)%Z ->
   rnd.WithCovN Factorize None n src = (Panic NilDereference, src)).
Proof.
  split; [|split; [|split]].
  - unfold rnd.WithCovN. destruct (n <=? 1)%Z; [reflexivity|].
    destruct cov as [c|]; [|reflexivity].
    destruct (Factorize c) as [[U vals]|]; [|reflexivity].
    destruct (_ ≫= _) as [U'| |]; try reflexivity.
    destruct (negb (makeslice_ok _ _)); [reflexivity|].
    destruct (rnd.fill _ src) as [data src'].
    destruct (negb _); [discriminate|]. cbn [fst snd].
    intros H. exfalso. revert H.
    rewrite is_err_bind; [discriminate|auto with no_err|auto with no_err].
  - unfold rnd.RouletteDrawN. destruct (_ || _); [reflexivity|].
    destruct (negb (makeslice_ok _ _)); [discriminate|].
    destruct (rnd.draw_loop _ _ _). discriminate.
  - intros Hn. now apply WithCovN_few_samples.
  - intros Hn. unfold rnd.WithCovN. destruct (Z.leb_spec n 1); [lia|reflexivity].
Qed.

(** When the SVD of a covariance with [r >= 1] rows succeeds with an
    [r x r] factor [U] and [r] singular values, [n >= 2] and the [r*n]
    floats can be allocated ([8*r*n] bytes within [maxAlloc]), [WithCovN]
    returns an [r x n] matrix and takes exactly [r*n] draws from the
    generator. With [L] the kernel's product of [U] and the diagonal matrix
    of the square roots of the singular values, and [Z] the [r x n] matrix
    holding the draws row by row (entry [(i, j)] is draw [i*n + j]), the
    entries are those of the kernel's product of [L] and [Z]. *)
Theorem samples_shape_and_draws {K : mat.Kernel}
    (Factorize : mat.Dense -> option (mat.Dense * list float))
    (c U : mat.Dense) (vals : list float) (n : Z) (src : rnd.source) :
  Factorize c = Some (U, vals) ->
  mat.Rows U = mat.Rows c -> mat.Cols U = mat.Rows c ->
  length vals = mat.Rows c -> 0 < mat.Rows c ->
  (2 <= n)%Z -> (Z.of_nat (mat.Rows c) * n * 8 <= maxAlloc)%Z ->
  let r := mat.Rows c in
  let k := Z.to_nat n in
  let diag := mat.mkDense r r (fun i j =>
                if i =? j then nth i (map PrimFloat.sqrt vals) 0%float
                else 0%float) in
  let L := mat.mkDense r r (mat.gemm mat.IsDiagonal U diag) in
  let Zm := mat.mkDense r k (fun i j =>
              nth (i * k + j) (fst (rnd.fill (r * k) src)) 0%float) in
  exists S src',
    rnd.WithCovN Factorize (Some c) n src = (Ret S, src') /\
    mat.Rows S = r /\ mat.Cols S = k /\
    (forall i j, mat.At S i j = mat.gemm mat.IsDense L Zm i j) /\
    (forall i j, i < r -> j < k -> mat.At Zm i j = src (i * k + j)) /\
    (forall i, src' i = advance (r * k) src i).
Proof.
  intros HF HrU HcU Hvals Hr Hn Hfit r k diag L Zm.
  assert (Hr0 : (r =? 0) = false) by (apply Nat.eqb_neq; unfold r; lia).
  assert (Hk0 : (k =? 0) = false) by (apply Nat.eqb_neq; unfold k; lia).
  assert (Hprod : (0 <= Z.of_nat r * n < 2 ^ 63)%Z).
  { fold r in Hfit. rewrite maxAlloc_eq in Hfit. split; [|lia].
    apply Z.mul_nonneg_nonneg; lia. }
  unfold rnd.WithCovN. destruct (Z.leb_spec n 1); [lia|]. rewrite HF.
  unfold mat.NewDiagonal, mat.MulInto, mat.Mul, mbind, result_bind.
  rewrite length_map, Hvals. fold r. rewrite Hr0, Nat.eqb_refl.
  cbn [negb bind mat.Dims mat.Rows mat.Cols].
  rewrite ?HcU, ?HrU. fold r. rewrite ?Nat.eqb_refl, ?Hr0.
  cbn [negb orb andb bind mat.Rows mat.Cols].
  rewrite ?HcU, ?HrU. fold r. rewrite ?Nat.eqb_refl. cbn [andb].
  rewrite wrap64_small by exact Hprod.
  rewrite (proj2 (makeslice_ok_iff 8 _)) by (fold r in Hfit; lia). cbn [negb].
  replace (Z.to_nat (Z.of_nat r * n)) with (r * k)
    by (unfold k; rewrite Z2Nat.inj_mul, Nat2Z.id; lia).
  pose proof (fill_length (r * k) src) as Hlen.
  pose proof (fill_source (r * k) src) as Hsrc.
  assert (Hdraws : forall i j, i < r -> j < k -> mat.At Zm i j = src (i * k + j)).
  { intros i j Hi Hj. unfold Zm. cbn [mat.At]. apply fill_nth. nia. }
  subst Zm.
  destruct (rnd.fill (r * k) src) as [data src'] eqn:Efill. cbn [fst snd] in *.
  rewrite Z.eqb_refl. cbn [negb].
  unfold mat.NewDense. fold k. rewrite Hr0, Hk0. cbn [orb].
  rewrite Hlen, Nat.eqb_refl. cbn [negb bind mat.Dims mat.Rows mat.Cols].
  rewrite ?Nat.eqb_refl, ?Hr0, ?Hk0. cbn [negb orb andb bind mat.Rows mat.Cols].
  rewrite ?Nat.eqb_refl. cbn [andb].
  eexists _, _. split; [reflexivity|]. split; [reflexivity|].
  split; [reflexivity|]. split; [intros i j; reflexivity|].
  split; [exact Hdraws|exact Hsrc].
Qed.

Lemma samples_shape_and_draws_witness :
  exists S src',
    rnd.WithCovN (K := mat.sequential) svd_id (Some a22) 3 halves = (Ret S, src') /\
    mat.Rows S = 2 /\ mat.Cols S = 3 /\
    (forall i, src' i = advance 6 halves i).
Proof.
  destruct (samples_shape_and_draws (K := mat.sequential)
              svd_id a22 id22 [4%float; 9%float] 3 halves)
    as (S & src' & E & HR & HC & _ & _ & Hsrc);
    try reflexivity; try (cbn; lia); try (rewrite maxAlloc_eq; cbn; lia).
  exists S, src'. split; [exact E|]. split; [exact HR|]. split; [exact HC|exact Hsrc].
Defined.

(* ================================================================= *)
(** * Further properties of [InitCond] *)

Section RoundTrip.
Import heap.

Implicit Types (h : heap) (l : loc).

(** What the constructor builds depends only on the objects it allocated. *)
Lemma NewInitCond_own h (v m d cd n k : nat) (buf cs : list float) :
  h !! v = Some (VecDense n (Some d)) -> h !! d = Some (Floats buf) ->
  n <= length buf -> 0 < n ->
  h !! m = Some (SymDense k (Some cd)) -> h !! cd = Some (Floats cs) ->
  0 < k ->
  exists c h1,
    InitCond.NewInitCond (Some v) (Some m) h = (Ret c, h1) /\
    preserved h h1 /\
    forall h2,
      (forall l o, length h <= l -> h1 !! l = Some o -> h2 !! l = Some o) ->
      holds h2 c n (take n buf) k (copy_upper k k k (repeat 0%float (k * k)) cs).
Proof.
  intros Hv Hd Hlen Hn Hm Hcd Hk.
  eexists _, _. split; [eapply NewInitCond_eq; eassumption|]. split.
  - rewrite <- app_assoc. apply preserved_app.
  - intros h2 Hown.
    set (h1 := h ++ [VecDense n (Some (S (length h))); Floats (take n buf)]) in *.
    assert (Hl1 : length h1 = S (S (length h)))
      by (unfold h1; rewrite length_app; cbn; lia).
    split.
    + exists (length h), (S (length h)), (take n buf).
      split; [reflexivity|]. split.
      { apply Hown; [lia|]. apply lookup_old. unfold h1. apply lookup_new_0. }
      split.
      { apply Hown; [lia|]. apply lookup_old. unfold h1. apply lookup_new_1. }
      rewrite length_take. split; [|lia].
      rewrite take_take. f_equal. lia.
    + exists (S (length h1)), (length h1). split; [reflexivity|].
      split; [apply Hown; [lia|apply lookup_new_1]|].
      split; [apply Hown; [lia|apply lookup_new_0]|].
      rewrite length_copy_upper, repeat_length. split; [reflexivity|assumption].
Qed.

(** The constructor and the accessors round-trip, and the [InitCond] is
    independent of the caller's arguments: whatever is done afterwards to
    the vector and the matrix that were passed in, [State] (of both
    packages) returns the entries the vector had at construction and [Cov]
    the entries the matrix had. The state length [n] and the covariance
    dimension [k] need not agree: the constructor does not compare them. *)
Theorem NewInitCond_round_trip h (v m d cd n k : nat) (buf cs : list float) :
  h !! v = Some (VecDense n (Some d)) -> h !! d = Some (Floats buf) ->
  n <= length buf -> 0 < n ->
  h !! m = Some (SymDense k (Some cd)) -> h !! cd = Some (Floats cs) ->
  length cs = k * k -> 0 < k ->
  exists c h1,
    InitCond.NewInitCond (Some v) (Some m) h = (Ret c, h1) /\
    preserved h h1 /\
    forall h2, mutates_only [v; d; m; cd] h1 h2 ->
      exists s hs mm hm,
        sim.State c h2 = (Ret s, hs) /\
        model.State c h2 = (Ret s, hs) /\
        InitCond.Cov c h2 = (Ret mm, hm) /\
        vec_entries hs s = vec_entries h v /\
        forall i j, i < k -> j < k ->
          sym_entry hm mm i j = sym_entry h m i j.
Proof.
  intros Hv Hd Hlen Hn Hm Hcd Hcs Hk.
  destruct (NewInitCond_own h v m d cd n k buf cs) as (c & h1 & E & Hp & Hown);
    try assumption.
  exists c, h1. split; [exact E|]. split; [exact Hp|].
  intros h2 Hmut.
  assert (H2 : holds h2 c n (take n buf) k
                 (copy_upper k k k (repeat 0%float (k * k)) cs)).
  { apply Hown. intros l o Hl Ho. apply Hmut; [|exact Ho].
    apply lookup_lt_Some in Hv, Hd, Hm, Hcd.
    rewrite !elem_of_cons, elem_of_nil. lia. }
  eexists _, _, _, _.
  split; [exact (State_sim_eq _ _ _ _ _ _ H2)|].
  split; [exact (State_model_eq _ _ _ _ _ _ H2)|].
  split; [exact (Cov_eq _ _ _ _ _ _ H2)|]. split.
  - rewrite vec_entries_new by (rewrite length_take; lia).
    unfold vec_entries. now rewrite Hv, Hd.
  - intros i j Hi Hj.
    rewrite sym_entry_new; [|now rewrite length_copy_upper, repeat_length|lia|lia].
    rewrite copy_upper_lookup by lia.
    unfold sym_entry. now rewrite Hm, Hcd.
Qed.

Lemma NewInitCond_round_trip_witness :
  exists c h1,
    InitCond.NewInitCond (Some 1) (Some 3) store0 = (Ret c, h1) /\
    preserved store0 h1 /\
    forall h2, mutates_only [1; 0; 3; 2] h1 h2 ->
      exists s hs mm hm,
        sim.State c h2 = (Ret s, hs) /\
        model.State c h2 = (Ret s, hs) /\
        InitCond.Cov c h2 = (Ret mm, hm) /\
        vec_entries hs s = vec_entries store0 1 /\
        forall i j, i < 2 -> j < 2 ->
          sym_entry hm mm i j = sym_entry store0 3 i j.
Proof.
  apply (NewInitCond_round_trip store0 1 3 0 2 2 2 [1%float; 2%float]
           [4%float; 1%float; 0%float; 9%float]); (reflexivity || (cbn; lia)).
Defined.

End RoundTrip.
